(** * A shallow embedding of [app.py]: token-gated chat broadcast

    The program is a FastAPI application with three parts:
    - a credential store ([users_db]) with [register] and [login];
    - signed bearer tokens ([create_access_token], [decode_access_token]);
    - a [ConnectionManager] holding the live WebSocket connections, and the
      [/ws/chat] endpoint that admits a connection and relays its frames.

    Python objects are embedded as follows.  A [WebSocket] object is compared and
    hashed by identity, so it is a natural number (its identity).  The
    [active_connections] list is a [list], the [usernames] dict and [users_db] are
    [gmap]s.  Exceptions are values of [exn]; a computation that may raise and
    that mutates the shared manager is a function from the state to a [result]
    and the new state. *)

From Stdlib Require Import ZArith.
From stdpp Require Import gmap strings list fin_maps.

Open Scope string_scope.
Open Scope list_scope.

(** ** Python exceptions and results *)

Module Py.

(** The exception classes the program raises, catches or can receive from the
    libraries under it.  [CancelledError] and [KeyboardInterrupt] derive from
    [BaseException] only; all others derive from [Exception].  [JWTError]
    stands for python-jose's [JWTError] and its subclasses. *)
Inductive exn : Type :=
| ValueError
| TypeError
| OverflowError
| RecursionError
| RuntimeError
| TimeoutError
| WebSocketDisconnect
| JWTError
| HTTPException (status_code : nat) (detail : string)
| CancelledError
| KeyboardInterrupt.

(** [isinstance(e, Exception)], the test made by [except Exception]. *)
Definition isinstance_Exception (e : exn) : bool :=
  match e with
  | CancelledError | KeyboardInterrupt => false
  | _ => true
  end.

(** [isinstance(e, WebSocketDisconnect)]. *)
Definition isinstance_WebSocketDisconnect (e : exn) : bool :=
  match e with
  | WebSocketDisconnect => true
  | _ => false
  end.

(** [isinstance(e, JWTError)]. *)
Definition isinstance_JWTError (e : exn) : bool :=
  match e with
  | JWTError => true
  | _ => false
  end.

(** [isinstance(e, ValueError)]. *)
Definition isinstance_ValueError (e : exn) : bool :=
  match e with
  | ValueError => true
  | _ => false
  end.

Inductive result (A : Type) : Type :=
| Return (a : A)
| Raise (e : exn).
Arguments Return {A} a.
Arguments Raise {A} e.

(** One statement after another in code that touches no shared state: the
    second runs when the first returns, an exception ends both. *)
Definition and_then {A B} (r : result A) (k : A -> result B) : result B :=
  match r with
  | Return a => k a
  | Raise e => Raise e
  end.

End Py.
Export Py.

(** ** The connection manager and the transport under it *)

Definition WebSocket : Type := nat.

Record ConnectionManager : Type := {
  active_connections : list WebSocket;
  usernames : gmap WebSocket string
}.

(** [ConnectionManager.__init__] *)
Definition ConnectionManager_init : ConnectionManager :=
  {| active_connections := []; usernames := ∅ |}.

(** What the program does on the wire, in order. *)
Inductive event : Type :=
| Accepted (ws : WebSocket)
| SendText (ws : WebSocket) (text : string)
| Closed (ws : WebSocket) (code : nat).

(** The state the WebSocket side runs on: the module-level [manager] and the
    events issued so far. *)
Record hub : Type := {
  manager : ConnectionManager;
  wire : list event
}.

Definition hub_init : hub := {| manager := ConnectionManager_init; wire := [] |}.

(** The peers and the network are not part of the program: whether a call of
    [accept] or [send_text] returns or raises is given by the environment.  The
    first argument is the number of events issued before the call, so the same
    socket may work at one moment and fail at another. *)
Record transport : Type := {
  accept_outcome : nat -> WebSocket -> option exn;
  send_outcome : nat -> WebSocket -> string -> option exn
}.

(** A healthy network, on which nothing raises. *)
Definition healthy : transport :=
  {| accept_outcome := fun _ _ => None; send_outcome := fun _ _ _ => None |}.

(** ** A state and exception monad for the manager's methods *)

Definition M (A : Type) : Type := hub -> result A * hub.

Definition ret {A} (a : A) : M A := fun h => (Return a, h).

Definition raise {A} (e : exn) : M A := fun h => (Raise e, h).

Definition bind {A B} (c : M A) (k : A -> M B) : M B :=
  fun h =>
    match c h with
    | (Return a, h') => k a h'
    | (Raise e, h') => (Raise e, h')
    end.

(** [try: body except <class>: handler]: [handles e] is the [isinstance] test
    of the [except] clause; an exception of another class propagates. *)
Definition try_except {A} (body : M A) (handles : exn -> bool) (handler : M A) : M A :=
  fun h =>
    match body h with
    | (Return a, h') => (Return a, h')
    | (Raise e, h') => if handles e then handler h' else (Raise e, h')
    end.

Declare Scope py_scope.
Delimit Scope py_scope with py.
Notation "x <- c ;; k" := (bind c (fun x => k))
  (at level 100, c at next level, right associativity) : py_scope.
Notation "c ;; k" := (bind c (fun _ => k))
  (at level 100, right associativity) : py_scope.
Open Scope py_scope.

Definition get_manager : M ConnectionManager := fun h => (Return (manager h), h).

Definition set_manager (m : ConnectionManager) : M unit :=
  fun h => (Return tt, {| manager := m; wire := wire h |}).

Definition emit (ev : event) : M unit :=
  fun h => (Return tt, {| manager := manager h; wire := wire h ++ [ev] |}).

(** [list.remove(x)]: drops the first occurrence of [x]; [None] stands for the
    [ValueError] raised when [x] does not occur. *)
Fixpoint list_remove (x : WebSocket) (l : list WebSocket) : option (list WebSocket) :=
  match l with
  | [] => None
  | y :: l' => if decide (x = y) then Some l' else cons y <$> list_remove x l'
  end.

Section Hub.

Variable net : transport.

(** [await websocket.accept()] *)
Definition accept (websocket : WebSocket) : M unit :=
  fun h =>
    let h' := {| manager := manager h; wire := wire h ++ [Accepted websocket] |} in
    match accept_outcome net (length (wire h)) websocket with
    | None => (Return tt, h')
    | Some e => (Raise e, h')
    end.

(** [await connection.send_text(text)] *)
Definition send_text (connection : WebSocket) (text : string) : M unit :=
  fun h =>
    let h' := {| manager := manager h; wire := wire h ++ [SendText connection text] |} in
    match send_outcome net (length (wire h)) connection text with
    | None => (Return tt, h')
    | Some e => (Raise e, h')
    end.

(** [await websocket.close(code=code)] *)
Definition close (websocket : WebSocket) (code : nat) : M unit :=
  emit (Closed websocket code).

(** [ConnectionManager.connect] *)
Definition connect (websocket : WebSocket) (username : string) : M unit :=
  accept websocket ;;
  m <- get_manager ;;
  set_manager {| active_connections := active_connections m ++ [websocket];
                 usernames := usernames m |} ;;
  m <- get_manager ;;
  set_manager {| active_connections := active_connections m;
                 usernames := <[websocket := username]> (usernames m) |}.

(** [ConnectionManager.disconnect] *)
Definition disconnect (websocket : WebSocket) : M unit :=
  m <- get_manager ;;
  match list_remove websocket (active_connections m) with
  | None => raise ValueError
  | Some l =>
      set_manager {| active_connections := l; usernames := usernames m |} ;;
      m <- get_manager ;;
      set_manager {| active_connections := active_connections m;
                     usernames := delete websocket (usernames m) |}
  end.

(** The body of the [for] loop of [broadcast], over the connections still to
    visit: the [try] around [send_text], whose [except Exception] clause is
    [pass]. *)
Fixpoint broadcast_loop (connections : list WebSocket) (text : string) : M unit :=
  match connections with
  | [] => ret tt
  | connection :: rest =>
      try_except (send_text connection text) isinstance_Exception (ret tt) ;;
      broadcast_loop rest text
  end.

(** [ConnectionManager.broadcast], when no other task changes the manager
    while it runs. *)
Definition broadcast (message sender : string) : M unit :=
  m <- get_manager ;;
  broadcast_loop (active_connections m) (sender +:+ ": " +:+ message).

End Hub.

(** The connections a run wrote to, in order. *)
Definition targets (evs : list event) : list WebSocket :=
  omap (fun ev => match ev with SendText ws _ => Some ws | _ => None end) evs.

(** ** Signed tokens (python-jose) *)

Module Jose.

(** A JSON float, as far as [int()] can tell floats apart: a finite one by
    its integer part, and the two that [int()] refuses. *)
Inductive jfloat : Type :=
| Finite (integer_part : Z)
| Infinite
| NotANumber.

(** JSON values as far as the claims of a token need them. *)
Inductive jvalue : Type :=
| JStr (s : string)
| JNum (z : Z)
| JFloat (f : jfloat)
| JBool (b : bool)
| JNull
| JArray
| JObject.

Abbreviation claims := (gmap string jvalue).

(** A token is a [str].  The program only ever looks at one through
    python-jose's loader, so a token is represented by what the loader makes
    of it.  [Undecodable]: the string is not a compact serialization (not
    three base64url segments, or a header that is not a JSON object), which
    the loader reports as a JWS error.  [Unloadable e]: the loader itself ends
    in an exception [e] that it does not catch (the JSON parser gives up on a
    deeply nested header with [RecursionError]).  [Compact]: the string yields
    the header's [alg], the payload (a JSON object, or not), the signing input
    (the first two segments as they stand) and the signature.
    [CompactUnparsable]: as [Compact], but parsing the payload ends in an
    exception [e] that is not a [ValueError]. *)
Inductive token : Type :=
| Undecodable
| Unloadable (e : exn)
| Compact (alg : option string) (payload : option claims)
          (signing_input signature : string)
| CompactUnparsable (alg : option string) (signing_input signature : string)
                    (e : exn).

Section Primitives.

(** The signature python-jose computes for an algorithm name, a key and a
    signing input (for ["HS256"], HMAC-SHA256), the two base64url segments it
    builds from an algorithm name and a payload, and Python's [int()] on a
    [str] ([None] where it raises [ValueError]). *)
Variable sign : string -> string -> string -> string.
Variable segments : string -> claims -> string.
Variable int_of_str : string -> option Z.

(** [jwt.encode(claims, key, algorithm)] *)
Definition jwt_encode (data : claims) (key algorithm : string) : token :=
  Compact (Some algorithm) (Some data) (segments algorithm data)
          (sign algorithm key (segments algorithm data)).

Definition signature_matches (alg key signing_input signature : string) : bool :=
  bool_decide (sign alg key signing_input = signature).

(** Python's [int(v)] on a value out of [json.loads]. *)
Definition py_int (v : jvalue) : result Z :=
  match v with
  | JNum z => Return z
  | JBool b => Return (if b then 1 else 0)%Z
  | JFloat (Finite z) => Return z
  | JFloat Infinite => Raise OverflowError
  | JFloat NotANumber => Raise ValueError
  | JStr s => match int_of_str s with
              | Some z => Return z
              | None => Raise ValueError
              end
  | JNull | JArray | JObject => Raise TypeError
  end.

(** [try: int(claims[name]) except ValueError: raise JWTClaimsError], for a
    claim that may be absent. *)
Definition int_claim (c : claims) (name : string) : result (option Z) :=
  match c !! name with
  | None => Return None
  | Some v =>
      match py_int v with
      | Return z => Return (Some z)
      | Raise e => if isinstance_ValueError e then Raise JWTError else Raise e
      end
  end.

Definition str_claim (c : claims) (name : string) : bool :=
  match c !! name with
  | None | Some (JStr _) => true
  | Some _ => false
  end.

Definition absent_claim (c : claims) (name : string) : bool :=
  match c !! name with
  | None => true
  | Some _ => false
  end.

(** [raise JWTClaimsError] unless the test holds. *)
Definition check (test : bool) : result unit :=
  if test then Return tt else Raise JWTError.

(** The checks [jwt.decode] makes on the registered claims, in its order,
    when it is called with default options and without audience, issuer,
    subject or access token, at time [now] (seconds since the epoch): [iat],
    [nbf] and [exp] go through [int()] when present, [nbf] is not in the
    future, [exp] is not in the past, an [aud] or [at_hash] claim cannot be
    matched, [sub] and [jti] are strings when present. *)
Definition validate_claims (now : Z) (c : claims) : result unit :=
  and_then (int_claim c "iat") (fun _ =>
  and_then (int_claim c "nbf") (fun nbf =>
  and_then (check (from_option (fun n => bool_decide (n <= now)%Z) true nbf)) (fun _ =>
  and_then (int_claim c "exp") (fun exp =>
  and_then (check (from_option (fun e => bool_decide (now <= e)%Z) true exp)) (fun _ =>
  check (absent_claim c "aud" && str_claim c "sub" && str_claim c "jti"
         && absent_claim c "at_hash")))))).

(** The header's algorithm is one of [algorithms] and the signature is the
    one [key] gives for the signing input; otherwise a JWS error, which
    [jwt.decode] turns into [JWTError]. *)
Definition jws_verify (alg : option string) (key : string) (algorithms : list string)
    (signing_input signature : string) : result unit :=
  match alg with
  | None => Raise JWTError
  | Some alg =>
      if negb (bool_decide (alg ∈ algorithms)) then Raise JWTError
      else check (signature_matches alg key signing_input signature)
  end.

(** [jwt.decode(token, key, algorithms=algorithms)]: the loader, the
    signature, the payload as a JSON object, the registered claims. *)
Definition jwt_decode (now : Z) (t : token) (key : string)
    (algorithms : list string) : result claims :=
  match t with
  | Undecodable => Raise JWTError
  | Unloadable e => Raise e
  | Compact alg payload signing_input signature =>
      and_then (jws_verify alg key algorithms signing_input signature) (fun _ =>
      match payload with
      | None => Raise JWTError
      | Some c => and_then (validate_claims now c) (fun _ => Return c)
      end)
  | CompactUnparsable alg signing_input signature e =>
      and_then (jws_verify alg key algorithms signing_input signature) (fun _ =>
      Raise e)
  end.

End Primitives.

End Jose.
Export Jose.

(** ** Security setup, credential store and HTTP routes *)

Definition SECRET_KEY : string := "your_secret_key".
Definition ALGORITHM : string := "HS256".
Definition ACCESS_TOKEN_EXPIRE_MINUTES : nat := 30.

(** A value of [users_db]: the dict [{"username": .., "hashed_password": ..}]. *)
Record user_record : Type := {
  rec_username : string;
  hashed_password : string
}.

(** The pydantic model [User]. *)
Record User : Type := {
  username : string;
  password : string
}.

(** The bodies the HTTP routes answer with. *)
Inductive body : Type :=
| Msg (msg : string)
| Token (access_token : token) (token_type : string).

Record response : Type := {
  status_code : nat;
  content : body
}.

Section Auth.

Variable sign : string -> string -> string -> string.
Variable segments : string -> claims -> string.
Variable int_of_str : string -> option Z.

(** passlib's bcrypt context: [hash] draws a fresh salt, which is an input
    here; [verify] checks a password against a stored hash. *)
Variable pwd_context_hash : string -> string -> string.
Variable pwd_context_verify : string -> string -> bool.

Definition verify_password (plain_password hashed : string) : bool :=
  pwd_context_verify plain_password hashed.

Definition get_password_hash (salt password : string) : string :=
  pwd_context_hash salt password.

Definition create_access_token (data : claims) : token :=
  jwt_encode sign segments data SECRET_KEY ALGORITHM.

(** [decode_access_token], called at time [now].  [payload.get("sub")] is
    [None] for an absent or null claim; [jwt_decode] lets no other
    non-string subject through (see [jwt_decode_sub]).  The [except] clause
    catches [JWTError] and nothing else. *)
Definition decode_access_token (now : Z) (t : token) : result (option string) :=
  match
    and_then (jwt_decode sign int_of_str now t SECRET_KEY [ALGORITHM]) (fun payload =>
    match payload !! "sub" with
    | Some (JStr username) => Return (Some username)
    | _ => Raise JWTError
    end)
  with
  | Return username => Return username
  | Raise e => if isinstance_JWTError e then Return None else Raise e
  end.

Definition get_current_user (users_db : gmap string user_record) (now : Z)
    (t : token) : result string :=
  and_then (decode_access_token now t) (fun username =>
  match username with
  | None => Raise (HTTPException 401 "Invalid authentication credentials")
  | Some username =>
      if bool_decide (username ∈ dom users_db)
      then Return username
      else Raise (HTTPException 401 "Invalid authentication credentials")
  end).

(** [POST /register]; the route answers with status 201 when the function
    returns. *)
Definition register (user : User) (salt : string)
    (users_db : gmap string user_record)
  : result response * gmap string user_record :=
  if bool_decide (username user ∈ dom users_db)
  then (Raise (HTTPException 400 "Username already registered"), users_db)
  else
    let hashed := get_password_hash salt (password user) in
    (Return {| status_code := 201; content := Msg "User registered" |},
     <[username user := {| rec_username := username user;
                           hashed_password := hashed |}]> users_db).

(** [POST /token] *)
Definition login (form_username form_password : string)
    (users_db : gmap string user_record) : result response :=
  match users_db !! form_username with
  | None => Raise (HTTPException 400 "Incorrect username or password")
  | Some user =>
      if verify_password form_password (hashed_password user)
      then Return {| status_code := 200;
                     content := Token (create_access_token {["sub" := JStr (rec_username user)]})
                                      "bearer" |}
      else Raise (HTTPException 400 "Incorrect username or password")
  end.

End Auth.

(** ** The streaming endpoint *)

Section Gateway.

Variable sign : string -> string -> string -> string.
Variable int_of_str : string -> option Z.
Variable net : transport.

(** The [while True] loop of the endpoint.  [inbound] lists what the
    successive calls of [receive_text] give: a text frame or an exception.
    When the list is used up the task is suspended in [receive_text]. *)
Fixpoint chat_loop (username : string) (inbound : list (result string)) : M unit :=
  match inbound with
  | [] => ret tt
  | Return data :: later => broadcast net data username ;; chat_loop username later
  | Raise e :: _ => raise e
  end.

(** [websocket_endpoint], called at time [now]. *)
Definition websocket_endpoint (now : Z) (websocket : WebSocket) (t : token)
    (inbound : list (result string)) : M unit :=
  match decode_access_token sign int_of_str now t with
  | Raise e => raise e
  | Return None => close websocket 1008
  | Return (Some username) =>
      connect net websocket username ;;
      try_except (chat_loop username inbound)
                 isinstance_WebSocketDisconnect
                 (disconnect websocket)
  end.

(** The route [/ws/chat] as FastAPI serves it: [token] is a required query
    parameter, and a request without it fails validation before the endpoint
    is called; FastAPI answers that by closing with code 1008. *)
Definition ws_chat_route (now : Z) (websocket : WebSocket)
    (query_token : option token) (inbound : list (result string)) : M unit :=
  match query_token with
  | None => close websocket 1008
  | Some t => websocket_endpoint now websocket t inbound
  end.

End Gateway.

(** ** Other tasks running at the suspension points of [broadcast] *)

(** What another connection's task can do to the registry while a broadcast is
    suspended in [send_text]: its endpoint admits it, or its session ends. *)
Inductive op : Type :=
| OpConnect (websocket : WebSocket) (username : string)
| OpDisconnect (websocket : WebSocket).

(** A call of one of the manager's methods. *)
Inductive call : Type :=
| Registry (o : op)
| Broadcast (message sender : string).

Section Interleaving.

Variable net : transport.

Definition run_op (o : op) : M unit :=
  match o with
  | OpConnect websocket username => connect net websocket username
  | OpDisconnect websocket => disconnect websocket
  end.

Definition run_call (c : call) : M unit :=
  match c with
  | Registry o => run_op o
  | Broadcast message sender => broadcast net message sender
  end.

(** A sequence of calls, one after the other, none interleaved with
    another. *)
Fixpoint run_calls (calls : list call) (h : hub) : hub :=
  match calls with
  | [] => h
  | c :: calls' => run_calls calls' (snd (run_call c h))
  end.

(** The operations run one after the other; an exception ends the task that
    made the call and nothing else. *)
Fixpoint run_ops (ops : list op) (h : hub) : hub :=
  match ops with
  | [] => h
  | o :: ops' => run_ops ops' (snd (run_op o h))
  end.

(** [broadcast] with other tasks running while it is suspended.  The [for]
    loop walks the list object itself: its iterator holds a position [i] and
    reads [active_connections[i]] from the list as it is at that moment,
    stopping when [i] is past the end.  [schedule] gives, for each
    [send_text] in turn, what the other tasks do before it completes; once it
    is used up nothing else runs. *)
Fixpoint broadcast_from (schedule : list (list op)) (i : nat) (text : string) : M unit :=
  match schedule with
  | [] => fun h => broadcast_loop net (drop i (active_connections (manager h))) text h
  | others :: schedule' =>
      fun h =>
        match active_connections (manager h) !! i with
        | None => (Return tt, h)
        | Some connection =>
            (try_except
               (fun h0 => let (r, h1) := send_text net connection text h0 in
                          (r, run_ops others h1))
               isinstance_Exception (ret tt) ;;
             broadcast_from schedule' (S i) text) h
        end
  end.

Definition broadcast_interleaved (schedule : list (list op))
    (message sender : string) : M unit :=
  broadcast_from schedule 0 (sender +:+ ": " +:+ message).

End Interleaving.

(** ** Vocabulary of the statements *)

(** The events of a fan-out of [text] to the connections [cs], in order. *)
Definition sends (text : string) (cs : list WebSocket) : list event :=
  (fun c => SendText c text) <$> cs.

(** The events a run added to the wire, given the state it started from. *)
Definition issued (before after : hub) : list event :=
  drop (length (wire before)) (wire after).

(** Every way [send_text] fails is a delivery failure: a closed socket, a
    timeout, a serialization error, all of them instances of [Exception].
    (Cancelling the broadcasting task itself is not a delivery failure.) *)
Definition delivery_failures_only (net : transport) : Prop :=
  forall t c s e, send_outcome net t c s = Some e -> isinstance_Exception e = true.

(** The registry is well formed: the list and the dict hold the same
    connections, and the list holds none twice. *)
Definition registry_ok (m : ConnectionManager) : Prop :=
  dom (usernames m) = list_to_set (active_connections m)
  /\ NoDup (active_connections m).

(** An operation is used as the endpoint uses it: [connect] on a socket that is
    not registered, [disconnect] on one that is. *)
Definition call_allowed (m : ConnectionManager) (c : call) : Prop :=
  match c with
  | Registry (OpConnect websocket _) => websocket ∉ active_connections m
  | Registry (OpDisconnect websocket) => websocket ∈ active_connections m
  | Broadcast _ _ => True
  end.

(** A sequence of calls each of which is allowed in the state it runs in. *)
Fixpoint calls_allowed (net : transport) (h : hub) (calls : list call) : Prop :=
  match calls with
  | [] => True
  | c :: calls' =>
      call_allowed (manager h) c /\ calls_allowed net (snd (run_call net c h)) calls'
  end.

(** All of a broadcast's writes go to the connections registered when it
    started, as they would if it walked a snapshot taken then. *)
Definition fans_out_over_snapshot (net : transport) (schedule : list (list op))
    (message sender : string) (h : hub) : Prop :=
  targets (issued h (snd (broadcast_interleaved net schedule message sender h)))
  = active_connections (manager h).

(** No other task does anything during the fan-out. *)
Definition undisturbed (schedule : list (list op)) : Prop :=
  Forall (fun others => others = []) schedule.

(** No task in the schedule registers the connection [c]. *)
Definition never_connects (c : WebSocket) (schedule : list (list op)) : Prop :=
  forall others o, others ∈ schedule -> o ∈ others ->
    match o with OpConnect websocket _ => websocket <> c | OpDisconnect _ => True end.

(** During the run from [before] to [after] a write to [c] was issued and
    raised. *)
Definition delivery_failed (net : transport) (before after : hub) (c : WebSocket) : Prop :=
  exists t text e,
    length (wire before) <= t
    /\ wire after !! t = Some (SendText c text)
    /\ send_outcome net t c text = Some e.

(** A transport on which every write to connection [dead] raises. *)
Definition dead_peer (dead : WebSocket) : transport :=
  {| accept_outcome := fun _ _ => None;
     send_outcome := fun _ c _ => if decide (c = dead) then Some RuntimeError else None |}.

(** Toy primitives to run the definitions on. *)
Definition toy_sign (alg key signing_input : string) : string :=
  alg +:+ "/" +:+ key +:+ "/" +:+ signing_input.
Definition toy_segments (alg : string) (_ : claims) : string := alg +:+ ".payload".
Definition toy_hash (salt password : string) : string := "$2b$" +:+ salt +:+ password.

(** A toy [int()] on strings: plain ASCII decimal digits. *)
Fixpoint toy_digits (acc : Z) (s : string) : option Z :=
  match s with
  | EmptyString => Some acc
  | String a s' =>
      let n := Ascii.nat_of_ascii a in
      if (48 <=? n)%nat && (n <=? 57)%nat
      then toy_digits (10 * acc + Z.of_nat (n - 48))%Z s'
      else None
  end.
Definition toy_int_of_str (s : string) : option Z :=
  match s with
  | EmptyString => None
  | _ => toy_digits 0 s
  end.




Definition room (cs : list WebSocket) (names : gmap WebSocket string) : hub :=
  {| manager := {| active_connections := cs; usernames := names |}; wire := [] |}.

(** Three connections in the room. *)
Definition lobby : hub := room [1; 2; 3] {[1 := "bob"; 2 := "eve"; 3 := "kim"]}.

(** Deregistration on failure, as the specification words it: after a run in which a
    write to a registered connection failed, the connection is gone from the
    registry. *)
Definition failed_connection_deregistered (net : transport) (message sender : string)
    (h : hub) (c : WebSocket) : Prop :=
  c ∈ active_connections (manager h) ->
  delivery_failed net h (snd (broadcast net message sender h)) c ->
  c ∉ active_connections (manager (snd (broadcast net message sender h))).

(** From [h] to [h'] the wire only grew, nothing was written to [c], and [c]
    is not registered at the end. *)
Definition quiet_for (c : WebSocket) (h h' : hub) : Prop :=
  (c ∉ active_connections (manager h'))
  /\ (exists evs, wire h' = wire h ++ evs /\ c ∉ targets evs).

(** A sequence of calls to run the manager on. *)
Definition evening : list call :=
  [Registry (OpConnect 1 "bob"); Registry (OpConnect 2 "eve");
   Broadcast "hi" "bob"; Registry (OpDisconnect 1); Registry (OpConnect 3 "dan")].


Definition mallory_token : token :=
  create_access_token toy_sign toy_segments {["sub" := JStr "mallory"]}.

Definition bob : User := {| username := "bob"; password := "secret123" |}.

Definition bob_registered : gmap string user_record :=
  snd (register toy_hash bob "salt1" ∅).

(** Registration requests served one after the other, each with the salt
    passlib draws for it. *)
Fixpoint register_all (pwd_hash : string -> string -> string)
    (requests : list (User * string)) (users_db : gmap string user_record)
  : gmap string user_record :=
  match requests with
  | [] => users_db
  | (user, salt) :: later =>
      register_all pwd_hash later (snd (register pwd_hash user salt users_db))
  end.

(** Every record of the store is filed under its own username. *)
Definition store_ok (users_db : gmap string user_record) : Prop :=
  forall name r, users_db !! name = Some r -> rec_username r = name.

(** The writes of a session of [username] that reads [frames] while the
    connections [cs] are registered. *)
Definition session_writes (username : string) (cs : list WebSocket)
    (frames : list string) : list event :=
  frames ≫= (fun data => sends (username +:+ ": " +:+ data) cs).

Definition is_connect (o : op) : bool :=
  match o with OpConnect _ _ => true | OpDisconnect _ => false end.

(** The number of admissions the other tasks make in a schedule. *)
Definition connects (schedule : list (list op)) : nat :=
  length (filter (fun o => is_connect o = true) (concat schedule)).

(** A toy password check for [toy_hash] with the salt ["salt1"]. *)
Definition toy_verify (plain hashed : string) : bool :=
  bool_decide (hashed = toy_hash "salt1" plain).

(** ** The fan-out loop *)

Section HubFacts.

Variable net : transport.

Lemma hub_eta (h : hub) : {| manager := manager h; wire := wire h |} = h.
Proof. by destruct h. Qed.

Lemma broadcast_loop_manager cs text h :
  manager (snd (broadcast_loop net cs text h)) = manager h.
Proof.
  revert h. induction cs as [|c cs IH]; intros h; [done|].
  cbn [broadcast_loop]. unfold bind, try_except, send_text, ret.
  destruct (send_outcome net (length (wire h)) c text) as [e|].
  - destruct (isinstance_Exception e); [by rewrite IH | done].
  - by rewrite IH.
Qed.

(** Whatever the sends do, the loop writes to a prefix of the connections, in
    order, each with the same text. *)
Lemma broadcast_loop_wire cs text h :
  exists k, wire (snd (broadcast_loop net cs text h)) = wire h ++ sends text (take k cs).
Proof.
  revert h. induction cs as [|c cs IH]; intros h.
  - exists 0. cbn. by rewrite app_nil_r.
  - cbn [broadcast_loop]. unfold bind, try_except, send_text, ret.
    destruct (send_outcome net (length (wire h)) c text) as [e|].
    + destruct (isinstance_Exception e).
      * destruct (IH {| manager := manager h; wire := wire h ++ [SendText c text] |}) as [k Hk].
        exists (S k). rewrite Hk. cbn. by rewrite <- app_assoc.
      * exists 1. cbn. by rewrite take_0.
    + destruct (IH {| manager := manager h; wire := wire h ++ [SendText c text] |}) as [k Hk].
      exists (S k). rewrite Hk. cbn. by rewrite <- app_assoc.
Qed.

(** With delivery failures only, the loop visits every connection and
    returns. *)
Lemma broadcast_loop_all cs text h :
  delivery_failures_only net ->
  broadcast_loop net cs text h
  = (Return tt, {| manager := manager h; wire := wire h ++ sends text cs |}).
Proof.
  intros Hnet. revert h. induction cs as [|c cs IH]; intros h.
  - cbn. unfold ret. by rewrite app_nil_r, hub_eta.
  - cbn [broadcast_loop]. unfold bind, try_except, send_text, ret.
    destruct (send_outcome net (length (wire h)) c text) as [e|] eqn:Hout.
    + rewrite (Hnet _ _ _ _ Hout). rewrite IH. cbn. by rewrite <- app_assoc.
    + rewrite IH. cbn. by rewrite <- app_assoc.
Qed.

Lemma broadcast_manager message sender h :
  manager (snd (broadcast net message sender h)) = manager h.
Proof. unfold broadcast, bind, get_manager. apply broadcast_loop_manager. Qed.

Lemma broadcast_all message sender h :
  delivery_failures_only net ->
  broadcast net message sender h
  = (Return tt,
     {| manager := manager h;
        wire := wire h ++ sends (sender +:+ ": " +:+ message)
                                (active_connections (manager h)) |}).
Proof. intros Hnet. unfold broadcast, bind, get_manager. by apply broadcast_loop_all. Qed.

Lemma issued_app h m evs :
  issued h {| manager := m; wire := wire h ++ evs |} = evs.
Proof. unfold issued. cbn. by rewrite drop_app_length. Qed.

Lemma targets_sends text cs : targets (sends text cs) = cs.
Proof.
  unfold targets, sends. induction cs as [|c cs IH]; [done|].
  cbn. by rewrite IH.
Qed.

End HubFacts.

(** ** Broadcast: failures, fan-out, registry *)

Example broadcast_two :
  broadcast healthy "hi" "bob"
    {| manager := {| active_connections := [1; 2]; usernames := {[1 := "bob"; 2 := "eve"]} |};
       wire := [] |}
  = (Return tt,
     {| manager := {| active_connections := [1; 2]; usernames := {[1 := "bob"; 2 := "eve"]} |};
        wire := [SendText 1 "bob: hi"; SendText 2 "bob: hi"] |}).
Proof. reflexivity. Qed.

Lemma dead_peer_delivery_failures dead : delivery_failures_only (dead_peer dead).
Proof.
  intros t c s e. cbn. destruct (decide (c = dead)); [|done].
  by intros [= <-].
Qed.

Lemma healthy_delivery_failures : delivery_failures_only healthy.
Proof. by intros t c s e. Qed.

#[local] Instance SendText_inj text : Inj (=) (=) (fun c => SendText c text).
Proof. by intros c1 c2 [= ->]. Qed.

Lemma broadcast_targets_all net message sender h :
  delivery_failures_only net ->
  targets (issued h (snd (broadcast net message sender h)))
  = active_connections (manager h).
Proof.
  intros Hnet. rewrite (broadcast_all net message sender h Hnet). cbn [snd].
  by rewrite issued_app, targets_sends.
Qed.

(** C1.  When every failure of [send_text] is a delivery failure, [broadcast]
    returns normally whatever connections fail, and it has written to every
    registered connection, in the order of the list: a failing connection
    neither stops the fan-out nor raises in the caller. *)
Theorem broadcast_swallows_delivery_failures net message sender h :
  delivery_failures_only net ->
  fst (broadcast net message sender h) = Return tt
  /\ targets (issued h (snd (broadcast net message sender h)))
     = active_connections (manager h).
Proof.
  intros Hnet. split; [|by apply broadcast_targets_all].
  by rewrite (broadcast_all net message sender h Hnet).
Qed.

Lemma broadcast_swallows_delivery_failures_witness :
  fst (broadcast (dead_peer 2) "hi" "bob" (room [1; 2; 3] {[1 := "bob"; 2 := "eve"; 3 := "dan"]}))
  = Return tt
  /\ targets (issued (room [1; 2; 3] {[1 := "bob"; 2 := "eve"; 3 := "dan"]})
                (snd (broadcast (dead_peer 2) "hi" "bob"
                        (room [1; 2; 3] {[1 := "bob"; 2 := "eve"; 3 := "dan"]}))))
     = [1; 2; 3].
Proof.
  apply (broadcast_swallows_delivery_failures (dead_peer 2) "hi" "bob"
           (room [1; 2; 3] {[1 := "bob"; 2 := "eve"; 3 := "dan"]})).
  apply dead_peer_delivery_failures.
Defined.

(** C2.  On a well-formed registry, and with delivery failures only,
    [broadcast(message, sender)] issues exactly one write of
    ["<sender>: <message>"] per registered connection and nothing else: as many
    writes as connections, no write twice, a write for a connection exactly when
    it is registered, and in particular one for every connection of the sender
    itself. *)
Theorem broadcast_delivers_once_each net message sender h :
  delivery_failures_only net ->
  registry_ok (manager h) ->
  let text := sender +:+ ": " +:+ message in
  let sent := issued h (snd (broadcast net message sender h)) in
  sent = sends text (active_connections (manager h))
  /\ length sent = length (active_connections (manager h))
  /\ NoDup sent
  /\ (forall ev, ev ∈ sent <->
        exists c, ev = SendText c text /\ c ∈ active_connections (manager h))
  /\ (forall c, usernames (manager h) !! c = Some sender -> SendText c text ∈ sent).
Proof.
  intros Hnet [Hdom Hnodup] text sent.
  assert (Hsent : sent = sends text (active_connections (manager h))).
  { unfold sent. rewrite (broadcast_all net message sender h Hnet). cbn [snd].
    apply issued_app. }
  rewrite Hsent. unfold sends. split; [done|]. split; [by rewrite length_fmap|].
  split; [by apply (NoDup_fmap_2 _)|]. split.
  - intros ev. rewrite list_elem_of_fmap. naive_solver.
  - intros c Hc. apply list_elem_of_fmap. exists c. split; [done|].
    assert (c ∈ dom (usernames (manager h))) as Hin by (apply elem_of_dom; eauto).
    rewrite Hdom in Hin. by apply elem_of_list_to_set in Hin.
Qed.

Lemma room_two_ok : registry_ok (manager (room [1; 2] {[1 := "bob"; 2 := "eve"]})).
Proof.
  split; cbn.
  - reflexivity.
  - apply NoDup_cons_2; [|apply NoDup_singleton].
    by intros [=]%list_elem_of_singleton.
Qed.

Lemma broadcast_delivers_once_each_witness :
  let sent := issued (room [1; 2] {[1 := "bob"; 2 := "eve"]})
                (snd (broadcast healthy "hi" "bob" (room [1; 2] {[1 := "bob"; 2 := "eve"]}))) in
  sent = sends "bob: hi" [1; 2]
  /\ length sent = 2
  /\ NoDup sent
  /\ (forall ev, ev ∈ sent <-> exists c, ev = SendText c "bob: hi" /\ c ∈ [1; 2])
  /\ (forall c, ({[1 := "bob"; 2 := "eve"]} : gmap WebSocket string) !! c = Some "bob" ->
        SendText c "bob: hi" ∈ sent).
Proof.
  apply (broadcast_delivers_once_each healthy "hi" "bob"
           (room [1; 2] {[1 := "bob"; 2 := "eve"]})
           healthy_delivery_failures room_two_ok).
Defined.

Lemma dead_peer_delivery_failed :
  delivery_failed (dead_peer 2) (room [1; 2] {[1 := "bob"; 2 := "eve"]})
    (snd (broadcast (dead_peer 2) "hi" "bob" (room [1; 2] {[1 := "bob"; 2 := "eve"]}))) 2.
Proof. exists 1, "bob: hi", RuntimeError. cbn. split; [lia | done]. Qed.

(** C3, refuted as stated.  Connection 2 is registered, the write to it raises,
    and after the broadcast it is still in [active_connections]. *)
Lemma failed_connection_deregistered_counterexample :
  ~ failed_connection_deregistered (dead_peer 2) "hi" "bob"
      (room [1; 2] {[1 := "bob"; 2 := "eve"]}) 2.
Proof.
  intros Hclaim. apply Hclaim.
  - cbn. set_solver.
  - apply dead_peer_delivery_failed.
  - rewrite broadcast_manager. cbn. set_solver.
Qed.

(** C3, amended.  When every failure of [send_text] is a delivery failure and
    the write to a registered connection fails during [broadcast], the failure
    is swallowed: [broadcast] returns normally and has written to every
    registered connection.  And nothing else happens: the registry is as it
    was, so the failing connection is still registered afterwards, in the list
    and in the dict under the same username. *)
Theorem failed_connection_stays_registered net message sender h c :
  delivery_failures_only net ->
  c ∈ active_connections (manager h) ->
  delivery_failed net h (snd (broadcast net message sender h)) c ->
  fst (broadcast net message sender h) = Return tt
  /\ targets (issued h (snd (broadcast net message sender h)))
     = active_connections (manager h)
  /\ manager (snd (broadcast net message sender h)) = manager h
  /\ c ∈ active_connections (manager (snd (broadcast net message sender h)))
  /\ usernames (manager (snd (broadcast net message sender h))) !! c
     = usernames (manager h) !! c.
Proof.
  intros Hnet Hc _.
  split; [by rewrite (broadcast_all net message sender h Hnet)|].
  split; [by apply broadcast_targets_all|].
  by rewrite broadcast_manager.
Qed.

Lemma failed_connection_stays_registered_witness :
  fst (broadcast (dead_peer 2) "hi" "bob" (room [1; 2] {[1 := "bob"; 2 := "eve"]}))
  = Return tt
  /\ targets (issued (room [1; 2] {[1 := "bob"; 2 := "eve"]})
                (snd (broadcast (dead_peer 2) "hi" "bob"
                        (room [1; 2] {[1 := "bob"; 2 := "eve"]}))))
     = active_connections (manager (room [1; 2] {[1 := "bob"; 2 := "eve"]}))
  /\ manager (snd (broadcast (dead_peer 2) "hi" "bob"
                     (room [1; 2] {[1 := "bob"; 2 := "eve"]})))
     = manager (room [1; 2] {[1 := "bob"; 2 := "eve"]})
  /\ 2 ∈ active_connections
          (manager (snd (broadcast (dead_peer 2) "hi" "bob"
                           (room [1; 2] {[1 := "bob"; 2 := "eve"]}))))
  /\ usernames (manager (snd (broadcast (dead_peer 2) "hi" "bob"
                                (room [1; 2] {[1 := "bob"; 2 := "eve"]})))) !! 2
     = usernames (manager (room [1; 2] {[1 := "bob"; 2 := "eve"]})) !! 2.
Proof.
  apply (failed_connection_stays_registered (dead_peer 2) "hi" "bob"
           (room [1; 2] {[1 := "bob"; 2 := "eve"]}) 2).
  - apply dead_peer_delivery_failures.
  - cbn. set_solver.
  - apply dead_peer_delivery_failed.
Defined.

(** ** Disconnect *)

Lemma list_remove_None x l : list_remove x l = None <-> x ∉ l.
Proof.
  induction l as [|y l IH]; cbn.
  - split; [intros _; apply not_elem_of_nil | done].
  - destruct (decide (x = y)) as [->|Hne].
    + split; [done | intros []; left].
    + rewrite fmap_None, IH, not_elem_of_cons.
      split; [by intros ? | by intros [_ ?]].
Qed.

Lemma disconnect_absent websocket h :
  websocket ∉ active_connections (manager h) ->
  disconnect websocket h = (Raise ValueError, h).
Proof.
  intros Hnot. apply list_remove_None in Hnot.
  unfold disconnect, bind, get_manager, raise. by rewrite Hnot.
Qed.

(** C4, the code at the failing input.  On a manager that does not hold the
    socket, [disconnect] raises [ValueError] out of [list.remove]; a second
    [disconnect] of a socket just removed does the same.  The registry is left
    as it was in both cases. *)
Theorem disconnect_absent_raises :
  disconnect 7 hub_init = (Raise ValueError, hub_init)
  /\ (disconnect 1 ;; disconnect 1) (room [1] {[1 := "bob"]})
     = (Raise ValueError, room [] ∅).
Proof. split; reflexivity. Qed.

(** ** The registry invariant *)

Section RegistryFacts.

Variable net : transport.

Lemma connect_unfold websocket username h :
  connect net websocket username h
  = match accept_outcome net (length (wire h)) websocket with
    | None =>
        (Return tt,
         {| manager := {| active_connections :=
                            active_connections (manager h) ++ [websocket];
                          usernames := <[websocket := username]> (usernames (manager h)) |};
            wire := wire h ++ [Accepted websocket] |})
    | Some e =>
        (Raise e, {| manager := manager h; wire := wire h ++ [Accepted websocket] |})
    end.
Proof.
  unfold connect, bind, accept, get_manager, set_manager.
  by destruct (accept_outcome net (length (wire h)) websocket).
Qed.

Lemma disconnect_unfold websocket h :
  disconnect websocket h
  = match list_remove websocket (active_connections (manager h)) with
    | None => (Raise ValueError, h)
    | Some l =>
        (Return tt,
         {| manager := {| active_connections := l;
                          usernames := delete websocket (usernames (manager h)) |};
            wire := wire h |})
    end.
Proof.
  unfold disconnect, bind, get_manager, set_manager, raise.
  by destruct (list_remove websocket (active_connections (manager h))).
Qed.

(** [list.remove] takes out one occurrence and keeps the rest in place. *)
Lemma list_remove_Some x l l' :
  list_remove x l = Some l' ->
  exists l1 l2, l = l1 ++ x :: l2 /\ l' = l1 ++ l2 /\ x ∉ l1.
Proof.
  revert l'. induction l as [|y l IH]; intros l'; cbn; [done|].
  destruct (decide (x = y)) as [->|Hne].
  - intros [= <-]. exists [], l. split; [done|]. split; [done|]. apply not_elem_of_nil.
  - destruct (list_remove x l) as [l0|] eqn:Hrem; [|done].
    intros [= <-]. destruct (IH l0 eq_refl) as (l1 & l2 & -> & -> & Hnot).
    exists (y :: l1), l2. split; [done|]. split; [done|].
    apply not_elem_of_cons. by split.
Qed.

Lemma list_remove_elem_of x l l' y :
  list_remove x l = Some l' -> y ∈ l' -> y ∈ l.
Proof.
  intros (l1 & l2 & -> & -> & _)%list_remove_Some.
  rewrite !elem_of_app, elem_of_cons. tauto.
Qed.

Lemma list_remove_NoDup x l l' :
  list_remove x l = Some l' -> NoDup l ->
  NoDup l' /\ forall y, y ∈ l' <-> y ∈ l /\ y <> x.
Proof.
  intros (l1 & l2 & -> & -> & Hnot)%list_remove_Some Hnd.
  apply NoDup_app in Hnd as (Hnd1 & Hdisj & Hnd2).
  apply NoDup_cons in Hnd2 as [Hx2 Hnd2].
  split.
  - apply NoDup_app. split; [done|]. split; [|done].
    intros y Hy1 Hy2. apply (Hdisj y Hy1). by right.
  - intros y. rewrite !elem_of_app, elem_of_cons. split.
    + intros [Hy|Hy]; (split; [tauto|]); intros ->; tauto.
    + tauto.
Qed.

Lemma connect_registry_ok websocket username h :
  registry_ok (manager h) ->
  websocket ∉ active_connections (manager h) ->
  registry_ok (manager (snd (connect net websocket username h))).
Proof.
  intros [Hdom Hnd] Hfresh. rewrite connect_unfold.
  destruct (accept_outcome net (length (wire h)) websocket); [done|].
  split; cbn.
  - rewrite dom_insert_L, Hdom, list_to_set_app_L. cbn.
    rewrite (right_id_L ∅ (∪)). apply (comm_L (∪)).
  - apply NoDup_app. split; [done|]. split; [|apply NoDup_singleton].
    intros y Hy ->%list_elem_of_singleton. done.
Qed.

Lemma disconnect_registry_ok websocket h :
  registry_ok (manager h) ->
  registry_ok (manager (snd (disconnect websocket h))).
Proof.
  intros [Hdom Hnd]. rewrite disconnect_unfold.
  destruct (list_remove websocket (active_connections (manager h))) as [l|] eqn:Hrem;
    [|done].
  destruct (list_remove_NoDup _ _ _ Hrem Hnd) as [Hnd' Hmem].
  split; cbn; [|done].
  rewrite dom_delete_L, Hdom. apply set_eq. intros y.
  rewrite elem_of_difference, !elem_of_list_to_set, elem_of_singleton, Hmem. done.
Qed.

Lemma run_call_registry_ok c h :
  registry_ok (manager h) ->
  call_allowed (manager h) c ->
  registry_ok (manager (snd (run_call net c h))).
Proof.
  intros Hok Hallowed. destruct c as [[websocket username|websocket]|message sender];
    cbn [run_call run_op].
  - by apply connect_registry_ok.
  - by apply disconnect_registry_ok.
  - by rewrite broadcast_manager.
Qed.

Lemma run_calls_registry_ok calls h :
  registry_ok (manager h) ->
  calls_allowed net h calls ->
  registry_ok (manager (run_calls net calls h)).
Proof.
  revert h. induction calls as [|c calls IH]; intros h Hok; cbn; [done|].
  intros [Hc Hrest]. apply IH; [|done]. by apply run_call_registry_ok.
Qed.

End RegistryFacts.

Lemma hub_init_registry_ok : registry_ok (manager hub_init).
Proof. split; cbn; [done | apply NoDup_nil_2]. Qed.

(** C9.  After any sequence of calls from the empty manager in which [connect]
    is only given sockets that are not registered and [disconnect] only sockets
    that are, the connections in [active_connections] are exactly the keys of
    [usernames], none occurs twice in the list, and a [broadcast] leaves the
    list and the dict as they are. *)
Theorem registry_invariant net calls :
  calls_allowed net hub_init calls ->
  dom (usernames (manager (run_calls net calls hub_init)))
  = list_to_set (active_connections (manager (run_calls net calls hub_init)))
  /\ NoDup (active_connections (manager (run_calls net calls hub_init)))
  /\ forall net' message sender,
       manager (snd (broadcast net' message sender (run_calls net calls hub_init)))
       = manager (run_calls net calls hub_init).
Proof.
  intros Hallowed.
  destruct (run_calls_registry_ok net calls hub_init hub_init_registry_ok Hallowed)
    as [Hdom Hnd].
  split; [done|]. split; [done|]. intros net' message sender. apply broadcast_manager.
Qed.

Lemma registry_invariant_witness :
  dom (usernames (manager (run_calls (dead_peer 2) evening hub_init)))
  = list_to_set (active_connections (manager (run_calls (dead_peer 2) evening hub_init)))
  /\ NoDup (active_connections (manager (run_calls (dead_peer 2) evening hub_init)))
  /\ forall net' message sender,
       manager (snd (broadcast net' message sender (run_calls (dead_peer 2) evening hub_init)))
       = manager (run_calls (dead_peer 2) evening hub_init).
Proof.
  apply (registry_invariant (dead_peer 2) evening).
  cbn. split; [apply not_elem_of_nil|].
  split; [by intros [=]%list_elem_of_singleton|].
  split; [done|].
  split; [by left|].
  split; [by intros [=]%list_elem_of_singleton | done].
Defined.

Example evening_registry :
  active_connections (manager (run_calls (dead_peer 2) evening hub_init)) = [2; 3].
Proof. reflexivity. Qed.

(** ** Broadcast with other tasks running at its suspension points *)

Section InterleavingFacts.

Variable net : transport.

Lemma targets_app evs1 evs2 : targets (evs1 ++ evs2) = targets evs1 ++ targets evs2.
Proof. unfold targets. apply omap_app. Qed.

Lemma quiet_for_refl c h : c ∉ active_connections (manager h) -> quiet_for c h h.
Proof.
  intros Hc. split; [done|]. exists []. split; [by rewrite app_nil_r|].
  apply not_elem_of_nil.
Qed.

Lemma quiet_for_trans c h1 h2 h3 :
  quiet_for c h1 h2 -> quiet_for c h2 h3 -> quiet_for c h1 h3.
Proof.
  intros [_ (evs1 & Hw1 & Hq1)] [Hc (evs2 & Hw2 & Hq2)]. split; [done|].
  exists (evs1 ++ evs2). split; [by rewrite Hw2, Hw1, app_assoc|].
  rewrite targets_app, not_elem_of_app. done.
Qed.

Lemma run_op_quiet c o h :
  c ∉ active_connections (manager h) ->
  match o with OpConnect websocket _ => websocket <> c | OpDisconnect _ => True end ->
  quiet_for c h (snd (run_op net o h)).
Proof.
  intros Hc Ho. destruct o as [websocket username|websocket]; cbn [run_op].
  - rewrite connect_unfold.
    destruct (accept_outcome net (length (wire h)) websocket); unfold quiet_for; cbn.
    + split; [done|]. exists [Accepted websocket]. split; [done|]. apply not_elem_of_nil.
    + split.
      * rewrite not_elem_of_app. split; [done|].
        by intros ->%list_elem_of_singleton.
      * exists [Accepted websocket]. split; [done|]. apply not_elem_of_nil.
  - rewrite disconnect_unfold.
    destruct (list_remove websocket (active_connections (manager h))) as [l|] eqn:Hrem.
    + unfold quiet_for; cbn. split.
      * intros Hin. apply Hc. by eapply list_remove_elem_of.
      * exists []. split; [by rewrite app_nil_r | apply not_elem_of_nil].
    + by apply quiet_for_refl.
Qed.

Lemma run_ops_quiet c others h :
  c ∉ active_connections (manager h) ->
  (forall o, o ∈ others ->
     match o with OpConnect websocket _ => websocket <> c | OpDisconnect _ => True end) ->
  quiet_for c h (run_ops net others h).
Proof.
  revert h. induction others as [|o others IH]; intros h Hc Hall; cbn.
  - by apply quiet_for_refl.
  - assert (quiet_for c h (snd (run_op net o h))) as Hstep.
    { apply run_op_quiet; [done|]. apply Hall. by left. }
    eapply quiet_for_trans; [exact Hstep|].
    apply IH; [apply Hstep|]. intros o' Ho'. apply Hall. by right.
Qed.

Lemma broadcast_loop_quiet c cs text h :
  c ∉ active_connections (manager h) -> c ∉ cs ->
  quiet_for c h (snd (broadcast_loop net cs text h)).
Proof.
  intros Hc Hcs. split; [by rewrite broadcast_loop_manager|].
  destruct (broadcast_loop_wire net cs text h) as [k Hk].
  exists (sends text (take k cs)). split; [done|].
  rewrite targets_sends. intros Hin. apply Hcs.
  by apply (subseteq_take k cs).
Qed.

Lemma send_text_quiet c connection text h :
  c ∉ active_connections (manager h) -> connection <> c ->
  quiet_for c h (snd (send_text net connection text h)).
Proof.
  intros Hc Hne. unfold send_text.
  destruct (send_outcome net (length (wire h)) connection text);
    unfold quiet_for; cbn;
    (split; [done|]); exists [SendText connection text];
    (split; [done|]); cbn; by intros ->%list_elem_of_singleton.
Qed.

(** A connection that is not registered when the fan-out reaches a position,
    and that no other task registers afterwards, is not written to. *)
Lemma broadcast_from_quiet c schedule i text h :
  c ∉ active_connections (manager h) ->
  never_connects c schedule ->
  quiet_for c h (snd (broadcast_from net schedule i text h)).
Proof.
  revert i h. induction schedule as [|others schedule IH]; intros i h Hc Hnever.
  - cbn [broadcast_from]. apply broadcast_loop_quiet; [done|].
    intros Hin. apply Hc. by apply (subseteq_drop i (active_connections (manager h))).
  - cbn [broadcast_from].
    destruct (active_connections (manager h) !! i) as [connection|] eqn:Hi;
      [|by apply quiet_for_refl].
    assert (connection <> c) as Hne.
    { intros ->. apply Hc. by eapply list_elem_of_lookup_2. }
    assert (never_connects c schedule) as Hnever'.
    { intros others' o Hin. apply Hnever. by right. }
    pose proof (send_text_quiet c connection text h Hc Hne) as Hsend.
    assert (quiet_for c h (run_ops net others (snd (send_text net connection text h))))
      as Hothers.
    { eapply quiet_for_trans; [exact Hsend|]. apply run_ops_quiet; [apply Hsend|].
      intros o Ho. apply (Hnever others o); [by left | done]. }
    unfold bind, try_except, ret.
    destruct (send_text net connection text h) as [r h1] eqn:Hs. cbn [snd] in *.
    destruct r as [[]|e].
    + eapply quiet_for_trans; [exact Hothers|]. apply IH; [apply Hothers | done].
    + destruct (isinstance_Exception e); [|done].
      eapply quiet_for_trans; [exact Hothers|]. apply IH; [apply Hothers | done].
Qed.

(** While no other task does anything, walking the live list by position is
    the loop over the connections from that position on. *)
Lemma broadcast_from_undisturbed schedule i text h :
  undisturbed schedule ->
  broadcast_from net schedule i text h
  = broadcast_loop net (drop i (active_connections (manager h))) text h.
Proof.
  intros Hund. revert i h.
  induction Hund as [|others schedule -> _ IH]; intros i h; [done|].
  cbn [broadcast_from].
  destruct (active_connections (manager h) !! i) as [connection|] eqn:Hi.
  - rewrite (drop_S _ _ _ Hi). cbn [broadcast_loop run_ops].
    unfold bind, try_except, ret, send_text.
    destruct (send_outcome net (length (wire h)) connection text) as [e|].
    + destruct (isinstance_Exception e); [|done]. by rewrite IH.
    + by rewrite IH.
  - apply lookup_ge_None in Hi. by rewrite drop_ge.
Qed.

(** With delivery failures only, the fan-out returns under every schedule. *)
Lemma broadcast_from_returns schedule i text h :
  delivery_failures_only net ->
  fst (broadcast_from net schedule i text h) = Return tt.
Proof.
  intros Hnet. revert i h. induction schedule as [|others schedule IH]; intros i h.
  - cbn [broadcast_from]. by rewrite broadcast_loop_all.
  - cbn [broadcast_from].
    destruct (active_connections (manager h) !! i) as [connection|]; [|done].
    unfold bind, try_except, ret, send_text.
    destruct (send_outcome net (length (wire h)) connection text) as [e|] eqn:Hout.
    + rewrite (Hnet _ _ _ _ Hout). apply IH.
    + apply IH.
Qed.

End InterleavingFacts.

Lemma issued_extends h h' evs : wire h' = wire h ++ evs -> issued h h' = evs.
Proof. intros Hw. unfold issued. by rewrite Hw, drop_app_length. Qed.

(** C5, refuted as stated.  Bob's broadcast starts with connections 1, 2 and 3
    registered; while it is suspended in its first write another task admits
    connection 4.  The broadcast then writes to 4 as well: it did not walk a
    snapshot taken at its start. *)
Lemma fans_out_over_snapshot_counterexample :
  ~ fans_out_over_snapshot healthy [[OpConnect 4 "dan"]] "hi" "bob"
      lobby.
Proof. unfold fans_out_over_snapshot. vm_compute. discriminate. Qed.

Example late_joiner_is_written_to :
  targets (issued lobby
             (snd (broadcast_interleaved healthy [[OpConnect 4 "dan"]] "hi" "bob" lobby)))
  = [1; 2; 3; 4].
Proof. reflexivity. Qed.

Lemma not_registered_not_written net schedule message sender h c :
  c ∉ active_connections (manager h) -> never_connects c schedule ->
  c ∉ targets (issued h (snd (broadcast_interleaved net schedule message sender h))).
Proof.
  intros Hc Hnever.
  destruct (broadcast_from_quiet net c schedule 0 (sender +:+ ": " +:+ message) h
              Hc Hnever) as [_ (evs & Hw & Hq)].
  unfold broadcast_interleaved. by rewrite (issued_extends _ _ _ Hw).
Qed.

(** C5, amended.  [broadcast] takes no snapshot and there is no guard to hold
    or to wait for: it walks the live list by position, and what other tasks do
    to the registry at its suspension points takes effect at once.  What holds
    is this.  A connection that is not registered when the broadcast starts is
    written to only if another task registers it during the fan-out.  When no
    other task touches the registry during the fan-out, the broadcast is the
    plain loop: with delivery failures only its writes go to exactly the
    connections registered at its start, and the registry is as before.  And
    with delivery failures only the fan-out returns under every schedule of
    the other tasks. *)
Theorem broadcast_walks_live_registry net schedule message sender h :
  (forall c, c ∉ active_connections (manager h) -> never_connects c schedule ->
     c ∉ targets (issued h (snd (broadcast_interleaved net schedule message sender h))))
  /\ (undisturbed schedule ->
        broadcast_interleaved net schedule message sender h
        = broadcast net message sender h)
  /\ (undisturbed schedule -> delivery_failures_only net ->
        fans_out_over_snapshot net schedule message sender h
        /\ manager (snd (broadcast_interleaved net schedule message sender h))
           = manager h)
  /\ (delivery_failures_only net ->
        fst (broadcast_interleaved net schedule message sender h) = Return tt).
Proof.
  assert (Hplain : undisturbed schedule ->
            broadcast_interleaved net schedule message sender h
            = broadcast net message sender h).
  { intros Hund. unfold broadcast_interleaved.
    by rewrite broadcast_from_undisturbed. }
  split; [|split; [done|split]].
  - intros c Hc Hnever. by apply not_registered_not_written.
  - intros Hund Hnet. unfold fans_out_over_snapshot. rewrite (Hplain Hund).
    split; [|apply broadcast_manager].
    by apply broadcast_targets_all.
  - intros Hnet. by apply broadcast_from_returns.
Qed.

Lemma broadcast_walks_live_registry_witness :
  (9 ∉ targets (issued lobby
                  (snd (broadcast_interleaved (dead_peer 2) [[OpDisconnect 1]] "hi" "bob" lobby))))
  /\ broadcast_interleaved (dead_peer 2) [[]; []] "hi" "bob" lobby
     = broadcast (dead_peer 2) "hi" "bob" lobby
  /\ (fans_out_over_snapshot (dead_peer 2) [[]; []] "hi" "bob" lobby
      /\ manager (snd (broadcast_interleaved (dead_peer 2) [[]; []] "hi" "bob" lobby))
         = manager lobby)
  /\ fst (broadcast_interleaved (dead_peer 2) [[OpDisconnect 1]] "hi" "bob" lobby)
     = Return tt.
Proof.
  destruct (broadcast_walks_live_registry (dead_peer 2) [[OpDisconnect 1]] "hi" "bob" lobby)
    as (Hquiet & _ & _ & Hreturns).
  destruct (broadcast_walks_live_registry (dead_peer 2) [[]; []] "hi" "bob" lobby)
    as (_ & Hplain & Hsnapshot & _).
  assert (undisturbed [[]; []]) as Hund by (by repeat constructor).
  split; [|split; [|split]].
  - apply Hquiet.
    + cbn. rewrite !not_elem_of_cons. repeat split; try done. apply not_elem_of_nil.
    + intros others o ->%list_elem_of_singleton ->%list_elem_of_singleton. exact I.
  - by apply Hplain.
  - apply Hsnapshot; [done | apply dead_peer_delivery_failures].
  - apply Hreturns, dead_peer_delivery_failures.
Defined.

(** What the positional walk does when a connection ahead of the position is
    removed: connection 2, registered throughout, is passed over. *)
Example removal_shifts_the_walk :
  targets (issued lobby
             (snd (broadcast_interleaved healthy [[OpDisconnect 1]] "hi" "bob" lobby)))
  = [1; 3].
Proof. reflexivity. Qed.

(** ** Tokens *)

Section TokenFacts.

Variable sign : string -> string -> string -> string.
Variable segments : string -> claims -> string.
Variable int_of_str : string -> option Z.

Lemma allowed_algorithm alg : bool_decide (alg ∈ [ALGORITHM]) = true <-> alg = ALGORITHM.
Proof. by rewrite bool_decide_eq_true, list_elem_of_singleton. Qed.


Lemma jws_verify_own_signature input :
  jws_verify sign (Some ALGORITHM) SECRET_KEY [ALGORITHM] input
    (sign ALGORITHM SECRET_KEY input)
  = Return tt.
Proof.
  unfold jws_verify, check, signature_matches.
  rewrite (proj2 (allowed_algorithm ALGORITHM) eq_refl). cbn [negb].
  by rewrite bool_decide_eq_true_2.
Qed.

Lemma check_Return test : check test = Return tt -> test = true.
Proof. by destruct test. Qed.


Lemma validate_claims_sub now c :
  validate_claims int_of_str now c = Return tt -> str_claim c "sub" = true.
Proof.
  unfold validate_claims, and_then.
  destruct (int_claim int_of_str c "iat"); [|done].
  destruct (int_claim int_of_str c "nbf") as [nbf|]; [|done].
  destruct (check (from_option _ true nbf)); [|done].
  destruct (int_claim int_of_str c "exp") as [exp|]; [|done].
  destruct (check (from_option _ true exp)); [|done].
  intros Hcheck%check_Return.
  repeat (apply andb_prop in Hcheck as [Hcheck ?]). done.
Qed.



Lemma jwt_decode_Compact now alg c input signature key algorithms payload :
  jwt_decode sign int_of_str now (Compact alg (Some c) input signature) key algorithms
  = Return payload ->
  payload = c /\ validate_claims int_of_str now c = Return tt.
Proof.
  cbn [jwt_decode]. unfold and_then.
  destruct (jws_verify sign alg key algorithms input signature); [|done].
  destruct (validate_claims int_of_str now c) as [[]|]; [|done].
  by intros [= <-].
Qed.

(** What [jwt_decode] returns carries a string subject or none. *)
Lemma jwt_decode_sub now t key algorithms payload :
  jwt_decode sign int_of_str now t key algorithms = Return payload ->
  payload !! "sub" = None \/ exists username, payload !! "sub" = Some (JStr username).
Proof.
  destruct t as [|e|alg [c|] input signature|alg input signature e]; cbn [jwt_decode];
    unfold and_then; try done.
  - intros Hdec.
    destruct (jwt_decode_Compact now alg c input signature key algorithms payload Hdec)
      as [-> Hvalid].
    apply validate_claims_sub in Hvalid. unfold str_claim in Hvalid.
    destruct (c !! "sub") as [[username| | | | | |]|]; try done; [right; eauto | by left].
  - by destruct (jws_verify sign alg key algorithms input signature).
  - by destruct (jws_verify sign alg key algorithms input signature).
Qed.

Lemma decode_round_trip now username :
  decode_access_token sign int_of_str now
    (create_access_token sign segments {["sub" := JStr username]})
  = Return (Some username).
Proof.
  unfold decode_access_token, create_access_token, jwt_encode. cbn [jwt_decode].
  rewrite jws_verify_own_signature. cbn [and_then].
  assert (validate_claims int_of_str now {["sub" := JStr username]} = Return tt) as ->
    by reflexivity.
  cbn [and_then]. by rewrite lookup_singleton_eq.
Qed.







End TokenFacts.




(** An expiry claim, had the token one, would be checked by [jwt.decode], as
    an integer, a numeric string or a float; the program never sets it. *)
Example expired_claim_rejected :
  decode_access_token toy_sign toy_int_of_str 100
    (Compact (Some "HS256") (Some {["sub" := JStr "alice"; "exp" := JNum 99]})
       "HS256.payload" (toy_sign "HS256" SECRET_KEY "HS256.payload"))
  = Return None.
Proof. reflexivity. Qed.

Example numeric_string_claim_accepted :
  decode_access_token toy_sign toy_int_of_str 100
    (Compact (Some "HS256") (Some {["sub" := JStr "alice"; "exp" := JStr "200"]})
       "HS256.payload" (toy_sign "HS256" SECRET_KEY "HS256.payload"))
  = Return (Some "alice").
Proof. reflexivity. Qed.

Example float_claim_accepted :
  decode_access_token toy_sign toy_int_of_str 100
    (Compact (Some "HS256") (Some {["sub" := JStr "alice"; "exp" := JFloat (Finite 200)]})
       "HS256.payload" (toy_sign "HS256" SECRET_KEY "HS256.payload"))
  = Return (Some "alice").
Proof. reflexivity. Qed.

(** ** The credential store *)

(** C7.  [register] on a username that is in the store raises the 400
    "Username already registered" error and leaves the store as it was, so the
    record stored under that name, with its hash, is the one from before.  On
    a username that is not in the store it answers 201 and stores under that
    name the username and what passlib's [hash] returns for the password, and
    nothing else of the password: the stored hash is not the password, since
    passlib's [hash] does not return its input, and two passwords with the
    same hash leave the same store.  Every other entry is as before. *)
Theorem register_duplicate_or_created pwd_hash user salt
    (users_db : gmap string user_record) :
  pwd_hash salt (password user) <> password user ->
  (username user ∈ dom users_db ->
     register pwd_hash user salt users_db
     = (Raise (HTTPException 400 "Username already registered"), users_db)
     /\ snd (register pwd_hash user salt users_db) !! username user
        = users_db !! username user)
  /\ (username user ∉ dom users_db ->
        fst (register pwd_hash user salt users_db)
        = Return {| status_code := 201; content := Msg "User registered" |}
        /\ snd (register pwd_hash user salt users_db) !! username user
           = Some {| rec_username := username user;
                     hashed_password := pwd_hash salt (password user) |}
        /\ (forall r, snd (register pwd_hash user salt users_db) !! username user = Some r ->
               hashed_password r <> password user)
        /\ (forall other, other <> username user ->
               snd (register pwd_hash user salt users_db) !! other = users_db !! other)
        /\ (forall other_password,
               pwd_hash salt other_password = pwd_hash salt (password user) ->
               register pwd_hash
                 {| username := username user; password := other_password |} salt users_db
               = register pwd_hash user salt users_db)).
Proof.
  intros Hhash. unfold register, get_password_hash. split; intros Hin.
  - by rewrite bool_decide_eq_true_2.
  - cbn [username password]. rewrite bool_decide_eq_false_2 by done. cbn [fst snd].
    split; [done|]. split; [by rewrite lookup_insert_eq|].
    split; [|split].
    + intros r. rewrite lookup_insert_eq. by intros [= <-].
    + intros other Hother. by rewrite lookup_insert_ne.
    + intros other_password ->. done.
Qed.

Lemma register_duplicate_or_created_witness :
  (register toy_hash {| username := "bob"; password := "hunter2" |} "salt2" bob_registered
   = (Raise (HTTPException 400 "Username already registered"), bob_registered)
   /\ snd (register toy_hash {| username := "bob"; password := "hunter2" |} "salt2"
             bob_registered) !! "bob"
      = bob_registered !! "bob")
  /\ (fst (register toy_hash bob "salt1" ∅)
      = Return {| status_code := 201; content := Msg "User registered" |}
      /\ snd (register toy_hash bob "salt1" ∅) !! username bob
         = Some {| rec_username := username bob;
                   hashed_password := toy_hash "salt1" (password bob) |}
      /\ (forall r, snd (register toy_hash bob "salt1" ∅) !! username bob = Some r ->
             hashed_password r <> password bob)
      /\ (forall other, other <> username bob ->
             snd (register toy_hash bob "salt1" ∅) !! other
             = (∅ : gmap string user_record) !! other)
      /\ (forall other_password,
             toy_hash "salt1" other_password = toy_hash "salt1" (password bob) ->
             register toy_hash {| username := username bob; password := other_password |}
               "salt1" ∅
             = register toy_hash bob "salt1" ∅)).
Proof.
  split.
  - apply (proj1 (register_duplicate_or_created toy_hash
                    {| username := "bob"; password := "hunter2" |} "salt2" bob_registered
                    ltac:(discriminate))).
    apply elem_of_dom. by eexists.
  - apply (proj2 (register_duplicate_or_created toy_hash bob "salt1" ∅
                    ltac:(discriminate))).
    rewrite dom_empty_L. apply not_elem_of_empty.
Defined.

Example bob_record :
  bob_registered !! "bob"
  = Some {| rec_username := "bob"; hashed_password := "$2b$salt1secret123" |}.
Proof. reflexivity. Qed.

(** ** Admission to the chat *)

Section AdmissionFacts.

Variable sign : string -> string -> string -> string.
Variable int_of_str : string -> option Z.
Variable net : transport.

Lemma endpoint_refuses now websocket t inbound h :
  decode_access_token sign int_of_str now t = Return None ->
  websocket_endpoint sign int_of_str net now websocket t inbound h
  = (Return tt, {| manager := manager h; wire := wire h ++ [Closed websocket 1008] |}).
Proof. intros Hdec. unfold websocket_endpoint. by rewrite Hdec. Qed.

Lemma endpoint_admits now websocket t username inbound h :
  decode_access_token sign int_of_str now t = Return (Some username) ->
  accept_outcome net (length (wire h)) websocket = None ->
  websocket_endpoint sign int_of_str net now websocket t inbound h
  = try_except (chat_loop net username inbound)
               isinstance_WebSocketDisconnect
               (disconnect websocket)
      {| manager := {| active_connections :=
                         active_connections (manager h) ++ [websocket];
                       usernames := <[websocket := username]> (usernames (manager h)) |};
         wire := wire h ++ [Accepted websocket] |}.
Proof.
  intros Hdec Hacc. unfold websocket_endpoint. rewrite Hdec.
  unfold bind at 1. by rewrite connect_unfold, Hacc.
Qed.

End AdmissionFacts.

(** C8.  A request to [/ws/chat] without a token, or with a token that
    [decode_access_token] rejects, is answered by closing the socket with code
    1008 and by nothing else: the socket is not accepted, [connect] is not
    called, and the manager is as before.  It is written no broadcast, under
    any schedule of the other tasks, and no frame of it is read or
    broadcast. *)
Theorem unauthenticated_connection_refused sign int_of_str net now websocket query_token inbound h :
  query_token = None
  \/ (exists t, query_token = Some t /\ decode_access_token sign int_of_str now t = Return None) ->
  ws_chat_route sign int_of_str net now websocket query_token inbound h
  = (Return tt, {| manager := manager h; wire := wire h ++ [Closed websocket 1008] |})
  /\ issued h (snd (ws_chat_route sign int_of_str net now websocket query_token inbound h))
     = [Closed websocket 1008]
  /\ manager (snd (ws_chat_route sign int_of_str net now websocket query_token inbound h))
     = manager h
  /\ (websocket ∉ active_connections (manager h) ->
      forall net' schedule message sender,
        never_connects websocket schedule ->
        websocket ∉ targets
          (issued (snd (ws_chat_route sign int_of_str net now websocket query_token inbound h))
             (snd (broadcast_interleaved net' schedule message sender
                     (snd (ws_chat_route sign int_of_str net now websocket query_token inbound h)))))).
Proof.
  intros Hbad.
  assert (ws_chat_route sign int_of_str net now websocket query_token inbound h
          = (Return tt, {| manager := manager h;
                           wire := wire h ++ [Closed websocket 1008] |})) as Hrun.
  { destruct Hbad as [-> | (t & -> & Hdec)]; [done|].
    by apply endpoint_refuses. }
  rewrite Hrun. cbn [snd]. split; [done|]. split; [apply issued_app|].
  split; [done|]. intros Hfresh net' schedule message sender Hnever.
  by apply not_registered_not_written.
Qed.

Lemma unauthenticated_connection_refused_witness :
  ws_chat_route toy_sign toy_int_of_str healthy 0 4 (Some Undecodable) [Return "let me in"] lobby
  = (Return tt, {| manager := manager lobby; wire := wire lobby ++ [Closed 4 1008] |})
  /\ ws_chat_route toy_sign toy_int_of_str healthy 0 4 None [Return "let me in"] lobby
     = (Return tt, {| manager := manager lobby; wire := wire lobby ++ [Closed 4 1008] |}).
Proof.
  split.
  - apply (unauthenticated_connection_refused toy_sign toy_int_of_str healthy 0 4 (Some Undecodable)
             [Return "let me in"] lobby).
    right. exists Undecodable. split; reflexivity.
  - apply (unauthenticated_connection_refused toy_sign toy_int_of_str healthy 0 4 None
             [Return "let me in"] lobby).
    left. reflexivity.
Defined.

(** C10.  The streaming endpoint asks [decode_access_token] and nothing else.
    For a token that decodes to a subject which is not a key of [users_db],
    [get_current_user] raises the 401 error, while [websocket_endpoint]
    accepts the socket, registers it under that subject and enters its loop;
    with no frame read yet the socket is in the registry.  For a subject that is
    in [users_db], [get_current_user] returns it. *)
Theorem endpoint_admits_unregistered_subject sign int_of_str net now websocket t
    subject inbound (users_db : gmap string user_record) h :
  decode_access_token sign int_of_str now t = Return (Some subject) ->
  accept_outcome net (length (wire h)) websocket = None ->
  (subject ∉ dom users_db ->
     get_current_user sign int_of_str users_db now t
     = Raise (HTTPException 401 "Invalid authentication credentials"))
  /\ (subject ∈ dom users_db ->
      get_current_user sign int_of_str users_db now t = Return subject)
  /\ websocket_endpoint sign int_of_str net now websocket t inbound h
     = try_except (chat_loop net subject inbound)
                  isinstance_WebSocketDisconnect
                  (disconnect websocket)
         {| manager := {| active_connections :=
                            active_connections (manager h) ++ [websocket];
                          usernames := <[websocket := subject]> (usernames (manager h)) |};
            wire := wire h ++ [Accepted websocket] |}
  /\ websocket_endpoint sign int_of_str net now websocket t [] h
     = (Return tt,
        {| manager := {| active_connections :=
                           active_connections (manager h) ++ [websocket];
                         usernames := <[websocket := subject]> (usernames (manager h)) |};
           wire := wire h ++ [Accepted websocket] |}).
Proof.
  intros Hdec Hacc. unfold get_current_user. rewrite Hdec. cbn [and_then].
  split; [intros Hout; by rewrite bool_decide_eq_false_2|].
  split; [intros Hin; by rewrite bool_decide_eq_true_2|].
  split; [by apply endpoint_admits|].
  by rewrite (endpoint_admits sign int_of_str net now websocket t subject [] h Hdec Hacc).
Qed.

Lemma endpoint_admits_unregistered_subject_witness :
  get_current_user toy_sign toy_int_of_str bob_registered 0 mallory_token
  = Raise (HTTPException 401 "Invalid authentication credentials")
  /\ websocket_endpoint toy_sign toy_int_of_str healthy 0 4 mallory_token [] lobby
     = (Return tt,
        {| manager := {| active_connections := active_connections (manager lobby) ++ [4];
                         usernames := <[4 := "mallory"]> (usernames (manager lobby)) |};
           wire := wire lobby ++ [Accepted 4] |}).
Proof.
  destruct (endpoint_admits_unregistered_subject toy_sign toy_int_of_str healthy 0 4 mallory_token
              "mallory" [] bob_registered lobby)
    as (Hhttp & _ & _ & Hws); [reflexivity | reflexivity |].
  split; [|exact Hws].
  apply Hhttp. intros Hin. apply elem_of_dom in Hin as [r Hr]. by vm_compute in Hr.
Defined.

(** Let in without an identity, and heard by everyone in the room. *)
Example mallory_speaks :
  targets (wire (snd (websocket_endpoint toy_sign toy_int_of_str healthy 0 4 mallory_token
                        [Return "boo"] lobby)))
  = [1; 2; 3; 4].
Proof. reflexivity. Qed.

(** ** More on the credential store and on login *)

Section StoreFacts.

Variable pwd_hash : string -> string -> string.

Lemma register_keeps user salt (users_db : gmap string user_record) name r :
  users_db !! name = Some r ->
  snd (register pwd_hash user salt users_db) !! name = Some r.
Proof.
  intros Hr. unfold register.
  destruct (bool_decide (username user ∈ dom users_db)) eqn:Hin; [done|].
  apply bool_decide_eq_false in Hin. cbn [snd].
  rewrite lookup_insert_ne; [done|]. intros <-. apply Hin, elem_of_dom. eauto.
Qed.

Lemma register_all_keeps requests (users_db : gmap string user_record) name r :
  users_db !! name = Some r ->
  register_all pwd_hash requests users_db !! name = Some r.
Proof.
  revert users_db. induction requests as [|[user salt] later IH]; intros users_db Hr;
    [done|].
  cbn [register_all]. by apply IH, register_keeps.
Qed.

Lemma register_store_ok user salt (users_db : gmap string user_record) :
  store_ok users_db -> store_ok (snd (register pwd_hash user salt users_db)).
Proof.
  intros Hok name r. unfold register.
  destruct (bool_decide (username user ∈ dom users_db)); cbn [snd]; [apply Hok|].
  rewrite lookup_insert. case_decide as Hname; [|apply Hok].
  intros [= <-]. done.
Qed.

Lemma register_all_store_ok requests (users_db : gmap string user_record) :
  store_ok users_db -> store_ok (register_all pwd_hash requests users_db).
Proof.
  revert users_db. induction requests as [|[user salt] later IH]; intros users_db Hok;
    [done|].
  cbn [register_all]. by apply IH, register_store_ok.
Qed.

Lemma register_all_untouched requests (users_db : gmap string user_record) name :
  users_db !! name = None ->
  (forall request, request ∈ requests -> username request.1 <> name) ->
  register_all pwd_hash requests users_db !! name = None.
Proof.
  revert users_db. induction requests as [|[user salt] later IH]; intros users_db Hnone Hall;
    [done|].
  cbn [register_all]. apply IH.
  - unfold register. destruct (bool_decide (username user ∈ dom users_db)); [done|].
    cbn [snd]. rewrite lookup_insert_ne; [done|].
    apply (Hall (user, salt)). by left.
  - intros request Hin. apply Hall. by right.
Qed.

Lemma register_all_app requests1 requests2 (users_db : gmap string user_record) :
  register_all pwd_hash (requests1 ++ requests2) users_db
  = register_all pwd_hash requests2 (register_all pwd_hash requests1 users_db).
Proof.
  revert users_db. induction requests1 as [|[user salt] later IH]; intros users_db; [done|].
  cbn [register_all app]. apply IH.
Qed.

End StoreFacts.

Lemma store_ok_empty : store_ok ∅.
Proof. intros name r. by rewrite lookup_empty. Qed.

(** X1.  However many registrations are served, and in whatever order, every record
    of the store is filed under the username it carries. *)
Theorem registered_store_ok pwd_hash requests :
  store_ok (register_all pwd_hash requests ∅).
Proof. apply register_all_store_ok, store_ok_empty. Qed.

(** X2.  The first registration of a username is the one that stays: whatever
    requests follow, with the same name or not, the store holds for that name
    the hash made from the first request's password. *)
Theorem first_registration_wins pwd_hash earlier user salt later :
  (forall request, request ∈ earlier -> username request.1 <> username user) ->
  register_all pwd_hash (earlier ++ (user, salt) :: later) ∅ !! username user
  = Some {| rec_username := username user;
            hashed_password := get_password_hash pwd_hash salt (password user) |}.
Proof.
  intros Hfresh. rewrite register_all_app. cbn [register_all].
  apply register_all_keeps.
  pose proof (register_all_untouched pwd_hash earlier ∅ (username user)
                (lookup_empty _) Hfresh) as Hnone.
  unfold register. rewrite bool_decide_eq_false_2.
  - cbn [snd]. by rewrite lookup_insert_eq.
  - intros [r Hr]%elem_of_dom. by rewrite Hnone in Hr.
Qed.

Lemma first_registration_wins_witness :
  register_all toy_hash
    ([({| username := "eve"; password := "pw" |}, "s0")]
     ++ (bob, "salt1") :: [({| username := "bob"; password := "hunter2" |}, "salt2")]) ∅
  !! username bob
  = Some {| rec_username := username bob;
            hashed_password := get_password_hash toy_hash "salt1" (password bob) |}.
Proof.
  apply (first_registration_wins toy_hash
           [({| username := "eve"; password := "pw" |}, "s0")] bob "salt1"
           [({| username := "bob"; password := "hunter2" |}, "salt2")]).
  intros request ->%list_elem_of_singleton. cbn. discriminate.
Defined.

Section LoginFacts.

Variable sign : string -> string -> string -> string.
Variable segments : string -> claims -> string.
Variable pwd_verify : string -> string -> bool.

Lemma login_Return name pw (users_db : gmap string user_record) r :
  login sign segments pwd_verify name pw users_db = Return r ->
  exists user,
    users_db !! name = Some user
    /\ pwd_verify pw (hashed_password user) = true
    /\ r = {| status_code := 200;
              content := Token (create_access_token sign segments
                                  {["sub" := JStr (rec_username user)]}) "bearer" |}.
Proof.
  unfold login, verify_password. destruct (users_db !! name) as [user|]; [|done].
  destruct (pwd_verify pw (hashed_password user)) eqn:Hv; [|done].
  intros [= <-]. by exists user.
Qed.

End LoginFacts.

(** X3.  [login] gives out a token only for a username that is in the store and a
    password that [verify_password] accepts against the stored hash.  An
    unknown username and a wrong password are answered by one and the same 400
    error, so the answer does not tell which of the two was wrong. *)
Theorem login_rejects_uniformly sign segments pwd_verify name pw
    (users_db : gmap string user_record) :
  (forall r, login sign segments pwd_verify name pw users_db = Return r ->
     exists user, users_db !! name = Some user
                  /\ pwd_verify pw (hashed_password user) = true)
  /\ (users_db !! name = None
      \/ (exists user, users_db !! name = Some user
                       /\ pwd_verify pw (hashed_password user) = false) ->
      login sign segments pwd_verify name pw users_db
      = Raise (HTTPException 400 "Incorrect username or password")).
Proof.
  split.
  - intros r (user & Hu & Hv & _)%login_Return. eauto.
  - unfold login, verify_password. intros [-> | (user & -> & ->)]; done.
Qed.

Lemma login_rejects_uniformly_witness :
  login toy_sign toy_segments toy_verify "nobody" "secret123" bob_registered
  = Raise (HTTPException 400 "Incorrect username or password")
  /\ login toy_sign toy_segments toy_verify "bob" "guess" bob_registered
     = Raise (HTTPException 400 "Incorrect username or password").
Proof.
  split.
  - apply (proj2 (login_rejects_uniformly toy_sign toy_segments toy_verify
                    "nobody" "secret123" bob_registered)).
    left. reflexivity.
  - apply (proj2 (login_rejects_uniformly toy_sign toy_segments toy_verify
                    "bob" "guess" bob_registered)).
    right. eexists. split; reflexivity.
Defined.

(** X4.  A token that [login] gives out against a store whose records are filed
    under their own usernames is accepted by [get_current_user] against that
    store, at every later time, and names the user who logged in. *)
Theorem login_token_is_accepted sign segments int_of_str pwd_verify name pw
    (users_db : gmap string user_record) r now :
  store_ok users_db ->
  login sign segments pwd_verify name pw users_db = Return r ->
  exists t,
    r = {| status_code := 200; content := Token t "bearer" |}
    /\ decode_access_token sign int_of_str now t = Return (Some name)
    /\ get_current_user sign int_of_str users_db now t = Return name.
Proof.
  intros Hok (user & Hu & Hv & ->)%login_Return.
  rewrite (Hok name user Hu). eexists. split; [done|].
  assert (decode_access_token sign int_of_str now
            (create_access_token sign segments {["sub" := JStr name]})
          = Return (Some name))
    as Hdec by apply decode_round_trip.
  split; [done|]. unfold get_current_user. rewrite Hdec. cbn [and_then].
  rewrite bool_decide_eq_true_2; [done|]. apply elem_of_dom. eauto.
Qed.

Lemma bob_registered_ok : store_ok bob_registered.
Proof. apply register_store_ok, store_ok_empty. Qed.

Lemma login_token_is_accepted_witness :
  exists t,
    {| status_code := 200;
       content := Token (create_access_token toy_sign toy_segments {["sub" := JStr "bob"]})
                        "bearer" |}
    = {| status_code := 200; content := Token t "bearer" |}
    /\ decode_access_token toy_sign toy_int_of_str 1893456000 t = Return (Some "bob")
    /\ get_current_user toy_sign toy_int_of_str bob_registered 1893456000 t = Return "bob".
Proof.
  apply (login_token_is_accepted toy_sign toy_segments toy_int_of_str toy_verify "bob" "secret123"
           bob_registered _ 1893456000 bob_registered_ok).
  reflexivity.
Defined.

(** X5.  Register, then log in: when passlib's [verify] accepts the password
    against the hash it has just made of it, a user registered under a free
    name can log in with the same password, gets a bearer token, and that token
    passes [get_current_user] at every time. *)
Theorem register_then_login sign segments int_of_str pwd_hash pwd_verify user salt
    (users_db : gmap string user_record) now :
  username user ∉ dom users_db ->
  pwd_verify (password user) (pwd_hash salt (password user)) = true ->
  exists t,
    login sign segments pwd_verify (username user) (password user)
      (snd (register pwd_hash user salt users_db))
    = Return {| status_code := 200; content := Token t "bearer" |}
    /\ get_current_user sign int_of_str (snd (register pwd_hash user salt users_db)) now t
       = Return (username user).
Proof.
  intros Hfresh Hverify. unfold register. rewrite bool_decide_eq_false_2 by done.
  cbn [snd]. unfold login, verify_password, get_password_hash.
  rewrite lookup_insert_eq. cbn [hashed_password rec_username]. rewrite Hverify.
  eexists. split; [done|]. unfold get_current_user.
  rewrite decode_round_trip. cbn [and_then]. rewrite bool_decide_eq_true_2; [done|].
  rewrite dom_insert_L. apply elem_of_union_l, elem_of_singleton. done.
Qed.

Lemma register_then_login_witness :
  exists t,
    login toy_sign toy_segments toy_verify (username bob) (password bob)
      (snd (register toy_hash bob "salt1" ∅))
    = Return {| status_code := 200; content := Token t "bearer" |}
    /\ get_current_user toy_sign toy_int_of_str (snd (register toy_hash bob "salt1" ∅)) 0 t
       = Return (username bob).
Proof.
  apply (register_then_login toy_sign toy_segments toy_int_of_str toy_hash toy_verify bob "salt1" ∅ 0).
  - rewrite dom_empty_L. apply not_elem_of_empty.
  - reflexivity.
Defined.

(** ** More on the manager's methods *)

Lemma manager_eta (m : ConnectionManager) :
  {| active_connections := active_connections m; usernames := usernames m |} = m.
Proof. by destruct m. Qed.

Lemma list_remove_first l1 x l2 :
  x ∉ l1 -> list_remove x (l1 ++ x :: l2) = Some (l1 ++ l2).
Proof.
  induction l1 as [|y l1 IH]; cbn; intros Hnot.
  - by rewrite decide_True.
  - apply not_elem_of_cons in Hnot as [Hne Hnot].
    rewrite decide_False by done. by rewrite IH.
Qed.

Lemma list_elem_of_first_split (x : WebSocket) l :
  x ∈ l -> exists l1 l2, l = l1 ++ x :: l2 /\ x ∉ l1.
Proof.
  intros Hin. destruct (list_remove x l) as [l'|] eqn:Hrem.
  - destruct (list_remove_Some x l l' Hrem) as (l1 & l2 & -> & _ & Hnot). eauto.
  - by apply list_remove_None in Hrem.
Qed.

Lemma registry_ok_fresh m websocket :
  registry_ok m -> websocket ∉ active_connections m -> usernames m !! websocket = None.
Proof.
  intros [Hdom _] Hfresh. apply not_elem_of_dom. rewrite Hdom.
  by rewrite elem_of_list_to_set.
Qed.

(** X7.  A socket whose [accept] raises is not registered: [connect] lets the
    exception through before it touches the list or the dict, and so does the
    endpoint, which then neither reads a frame nor calls [disconnect]. *)
Theorem failed_accept_registers_nothing sign int_of_str net now websocket t subject inbound h e :
  accept_outcome net (length (wire h)) websocket = Some e ->
  connect net websocket subject h
  = (Raise e, {| manager := manager h; wire := wire h ++ [Accepted websocket] |})
  /\ (decode_access_token sign int_of_str now t = Return (Some subject) ->
      websocket_endpoint sign int_of_str net now websocket t inbound h
      = (Raise e, {| manager := manager h; wire := wire h ++ [Accepted websocket] |})).
Proof.
  intros Hacc. split.
  - by rewrite connect_unfold, Hacc.
  - intros Hdec. unfold websocket_endpoint. rewrite Hdec.
    unfold bind at 1. by rewrite connect_unfold, Hacc.
Qed.

Lemma failed_accept_registers_nothing_witness :
  connect {| accept_outcome := fun _ _ => Some RuntimeError;
             send_outcome := fun _ _ _ => None |} 4 "dan" lobby
  = (Raise RuntimeError, {| manager := manager lobby; wire := wire lobby ++ [Accepted 4] |}).
Proof.
  apply (failed_accept_registers_nothing toy_sign toy_int_of_str
           {| accept_outcome := fun _ _ => Some RuntimeError;
              send_outcome := fun _ _ _ => None |}
           0 4 Undecodable "dan" [] lobby RuntimeError).
  reflexivity.
Defined.

Lemma disconnect_after_connect websocket subject m w :
  registry_ok m -> websocket ∉ active_connections m ->
  disconnect websocket
    {| manager := {| active_connections := active_connections m ++ [websocket];
                     usernames := <[websocket := subject]> (usernames m) |};
       wire := w |}
  = (Return tt, {| manager := m; wire := w |}).
Proof.
  intros Hok Hfresh. rewrite disconnect_unfold. cbn [manager active_connections usernames wire].
  rewrite (list_remove_first _ _ [] Hfresh), app_nil_r.
  rewrite delete_insert_id by by apply registry_ok_fresh.
  by rewrite manager_eta.
Qed.

(** X8.  [connect] followed by [disconnect] of the same socket gives back the
    registry as it was, list and dict, when the socket was not registered
    before and the registry is well formed. *)
Theorem connect_disconnect_round_trip net websocket subject h :
  registry_ok (manager h) ->
  websocket ∉ active_connections (manager h) ->
  accept_outcome net (length (wire h)) websocket = None ->
  (connect net websocket subject ;; disconnect websocket) h
  = (Return tt, {| manager := manager h; wire := wire h ++ [Accepted websocket] |}).
Proof.
  intros Hok Hfresh Hacc. unfold bind. rewrite connect_unfold, Hacc.
  by apply disconnect_after_connect.
Qed.

Lemma lobby_ok : registry_ok (manager lobby).
Proof.
  split; cbn; [reflexivity|].
  apply NoDup_cons_2; [|apply NoDup_cons_2; [|apply NoDup_singleton]].
  - rewrite !not_elem_of_cons. repeat split; try done. apply not_elem_of_nil.
  - by intros [=]%list_elem_of_singleton.
Qed.

Lemma four_not_in_lobby : 4 ∉ active_connections (manager lobby).
Proof. cbn. rewrite !not_elem_of_cons. repeat split; try done. apply not_elem_of_nil. Qed.

Lemma connect_disconnect_round_trip_witness :
  (connect healthy 4 "dan" ;; disconnect 4) lobby
  = (Return tt, {| manager := manager lobby; wire := wire lobby ++ [Accepted 4] |}).
Proof.
  apply (connect_disconnect_round_trip healthy 4 "dan" lobby lobby_ok four_not_in_lobby).
  reflexivity.
Defined.

(** X9.  [disconnect] of a socket that is in the list takes out its first
    occurrence, keeps every other entry in place and drops its username.  So
    for a socket that was in the list twice the list and the dict part: it is
    still in [active_connections], and has no username any more. *)
Theorem disconnect_removes_first_occurrence websocket h :
  websocket ∈ active_connections (manager h) ->
  exists l1 l2,
    active_connections (manager h) = l1 ++ websocket :: l2
    /\ (websocket ∉ l1)
    /\ disconnect websocket h
       = (Return tt,
          {| manager := {| active_connections := l1 ++ l2;
                           usernames := delete websocket (usernames (manager h)) |};
             wire := wire h |})
    /\ (websocket ∈ l2 ->
        websocket ∈ active_connections (manager (snd (disconnect websocket h)))
        /\ usernames (manager (snd (disconnect websocket h))) !! websocket = None).
Proof.
  intros (l1 & l2 & Hl & Hnot)%list_elem_of_first_split.
  exists l1, l2. split; [done|]. split; [done|].
  assert (disconnect websocket h
          = (Return tt,
             {| manager := {| active_connections := l1 ++ l2;
                              usernames := delete websocket (usernames (manager h)) |};
                wire := wire h |})) as Hrun.
  { by rewrite disconnect_unfold, Hl, list_remove_first. }
  split; [done|]. intros Hin. rewrite Hrun. cbn. split.
  - apply elem_of_app. by right.
  - apply lookup_delete_eq.
Qed.

Lemma disconnect_removes_first_occurrence_witness :
  exists l1 l2,
    active_connections (manager (room [1; 2; 1] {[1 := "bob"; 2 := "eve"]}))
    = l1 ++ 1 :: l2
    /\ (1 ∉ l1)
    /\ disconnect 1 (room [1; 2; 1] {[1 := "bob"; 2 := "eve"]})
       = (Return tt,
          {| manager := {| active_connections := l1 ++ l2;
                           usernames := delete 1 (usernames
                                          (manager (room [1; 2; 1] {[1 := "bob"; 2 := "eve"]}))) |};
             wire := wire (room [1; 2; 1] {[1 := "bob"; 2 := "eve"]}) |})
    /\ (1 ∈ l2 ->
        1 ∈ active_connections
              (manager (snd (disconnect 1 (room [1; 2; 1] {[1 := "bob"; 2 := "eve"]}))))
        /\ usernames (manager (snd (disconnect 1 (room [1; 2; 1] {[1 := "bob"; 2 := "eve"]}))))
           !! 1 = None).
Proof.
  apply (disconnect_removes_first_occurrence 1 (room [1; 2; 1] {[1 := "bob"; 2 := "eve"]})).
  cbn. by left.
Defined.

(** ** Sessions *)

Section SessionFacts.

Variable sign : string -> string -> string -> string.
Variable net : transport.

(** Reading and relaying frames never changes the registry. *)
Lemma chat_loop_manager subject inbound h :
  manager (snd (chat_loop net subject inbound h)) = manager h.
Proof.
  revert h. induction inbound as [|[data|e] later IH]; intros h; [done| |done].
  cbn [chat_loop]. unfold bind.
  pose proof (broadcast_manager net data subject h) as Hb.
  destruct (broadcast net data subject h) as [[[]|e] h1]; cbn [snd] in *.
  - by rewrite IH.
  - done.
Qed.

Lemma chat_loop_frames subject frames rest h :
  delivery_failures_only net ->
  chat_loop net subject ((Return <$> frames) ++ rest) h
  = chat_loop net subject rest
      {| manager := manager h;
         wire := wire h ++ session_writes subject (active_connections (manager h)) frames |}.
Proof.
  intros Hnet. revert h. induction frames as [|data frames IH]; intros h.
  - cbn. by rewrite app_nil_r, hub_eta.
  - cbn [fmap list_fmap app chat_loop]. unfold bind at 1.
    rewrite (broadcast_all net data subject h Hnet), IH.
    cbn [manager wire]. unfold session_writes. cbn [mbind list_bind].
    by rewrite <- app_assoc.
Qed.

End SessionFacts.

(** X10.  A whole session.  A socket that is not registered presents a valid token,
    is accepted, sends [frames] and then goes away ([receive_text] raises
    [WebSocketDisconnect]).  With delivery failures only, the endpoint returns
    normally; every frame was relayed once, in order, as
    ["<subject>: <frame>"], to the connections registered before and to the
    socket itself; and at the end the registry is what it was before the
    session. *)
Theorem session_relays_and_leaves sign int_of_str net now websocket t subject frames h :
  delivery_failures_only net ->
  registry_ok (manager h) ->
  websocket ∉ active_connections (manager h) ->
  decode_access_token sign int_of_str now t = Return (Some subject) ->
  accept_outcome net (length (wire h)) websocket = None ->
  websocket_endpoint sign int_of_str net now websocket t
    ((Return <$> frames) ++ [Raise WebSocketDisconnect]) h
  = (Return tt,
     {| manager := manager h;
        wire := wire h ++ Accepted websocket
                  :: session_writes subject
                       (active_connections (manager h) ++ [websocket]) frames |}).
Proof.
  intros Hnet Hok Hfresh Hdec Hacc.
  rewrite (endpoint_admits sign int_of_str net now websocket t subject _ h Hdec Hacc).
  unfold try_except. rewrite (chat_loop_frames net subject frames _ _ Hnet).
  cbn [chat_loop raise manager wire active_connections isinstance_WebSocketDisconnect].
  rewrite (disconnect_after_connect websocket subject (manager h) _ Hok Hfresh).
  by rewrite <- app_assoc.
Qed.

Lemma session_relays_and_leaves_witness :
  websocket_endpoint toy_sign toy_int_of_str (dead_peer 2) 0 4 mallory_token
    ((Return <$> ["hi"; "bye"]) ++ [Raise WebSocketDisconnect]) lobby
  = (Return tt,
     {| manager := manager lobby;
        wire := wire lobby ++ Accepted 4
                  :: session_writes "mallory"
                       (active_connections (manager lobby) ++ [4]) ["hi"; "bye"] |}).
Proof.
  apply (session_relays_and_leaves toy_sign toy_int_of_str (dead_peer 2) 0 4 mallory_token "mallory"
           ["hi"; "bye"] lobby (dead_peer_delivery_failures 2) lobby_ok four_not_in_lobby).
  - reflexivity.
  - reflexivity.
Defined.

(** X11.  A session that ends in any other exception than [WebSocketDisconnect]
    (a protocol error out of [receive_text], say) lets that exception through
    and never calls [disconnect]: the socket stays in the registry, under its
    username, after its task has ended. *)
Theorem session_error_leaves_socket_registered sign int_of_str net now websocket t subject
    frames e later h :
  delivery_failures_only net ->
  isinstance_WebSocketDisconnect e = false ->
  decode_access_token sign int_of_str now t = Return (Some subject) ->
  accept_outcome net (length (wire h)) websocket = None ->
  websocket_endpoint sign int_of_str net now websocket t ((Return <$> frames) ++ Raise e :: later) h
  = (Raise e,
     {| manager := {| active_connections := active_connections (manager h) ++ [websocket];
                      usernames := <[websocket := subject]> (usernames (manager h)) |};
        wire := wire h ++ Accepted websocket
                  :: session_writes subject
                       (active_connections (manager h) ++ [websocket]) frames |}).
Proof.
  intros Hnet He Hdec Hacc.
  rewrite (endpoint_admits sign int_of_str net now websocket t subject _ h Hdec Hacc).
  unfold try_except. rewrite (chat_loop_frames net subject frames _ _ Hnet).
  cbn [chat_loop raise manager wire active_connections]. rewrite He.
  by rewrite <- app_assoc.
Qed.

Lemma session_error_leaves_socket_registered_witness :
  websocket_endpoint toy_sign toy_int_of_str healthy 0 4 mallory_token
    ((Return <$> ["hi"]) ++ Raise RuntimeError :: []) lobby
  = (Raise RuntimeError,
     {| manager := {| active_connections := active_connections (manager lobby) ++ [4];
                      usernames := <[4 := "mallory"]> (usernames (manager lobby)) |};
        wire := wire lobby ++ Accepted 4
                  :: session_writes "mallory"
                       (active_connections (manager lobby) ++ [4]) ["hi"] |}).
Proof.
  apply (session_error_leaves_socket_registered toy_sign toy_int_of_str healthy 0 4 mallory_token
           "mallory" ["hi"] RuntimeError [] lobby healthy_delivery_failures).
  - reflexivity.
  - reflexivity.
  - reflexivity.
Defined.

(** X12.  Whatever the token, the network and the frames, a run of the endpoint for
    a socket that is not registered leaves the registry well formed: the list
    and the dict hold the same connections, none twice. *)
Theorem endpoint_keeps_registry_ok sign int_of_str net now websocket t inbound h :
  registry_ok (manager h) ->
  websocket ∉ active_connections (manager h) ->
  registry_ok (manager (snd (websocket_endpoint sign int_of_str net now websocket t inbound h))).
Proof.
  intros Hok Hfresh. unfold websocket_endpoint.
  destruct (decode_access_token sign int_of_str now t) as [[subject|]|e]; [|done|done].
  unfold bind at 1.
  pose proof (connect_registry_ok net websocket subject h Hok Hfresh) as Hconn.
  destruct (connect net websocket subject h) as [[[]|e] h1]; cbn [snd] in Hconn; [|done].
  unfold try_except.
  pose proof (chat_loop_manager net subject inbound h1) as Hloop.
  destruct (chat_loop net subject inbound h1) as [[[]|e] h2]; cbn [snd] in *.
  - by rewrite Hloop.
  - destruct (isinstance_WebSocketDisconnect e); cbn [snd]; [|by rewrite Hloop].
    apply disconnect_registry_ok. by rewrite Hloop.
Qed.

Lemma endpoint_keeps_registry_ok_witness :
  registry_ok (manager (snd (websocket_endpoint toy_sign toy_int_of_str (dead_peer 2) 0 4 mallory_token
                               [Return "hi"; Raise RuntimeError] lobby))).
Proof.
  apply (endpoint_keeps_registry_ok toy_sign toy_int_of_str (dead_peer 2) 0 4 mallory_token
           [Return "hi"; Raise RuntimeError] lobby lobby_ok four_not_in_lobby).
Defined.

(** ** The edges of the fan-out *)

Lemma string_app_assoc (s1 s2 s3 : string) : (s1 +:+ s2) +:+ s3 = s1 +:+ s2 +:+ s3.
Proof.
  induction s1 as [|a s1 IH]; [done|].
  change (String a ((s1 +:+ s2) +:+ s3) = String a (s1 +:+ s2 +:+ s3)).
  by rewrite IH.
Qed.

(** X13.  The text of a broadcast does not tell where the sender's name ends: a
    sender whose name contains a colon and a space is written to every
    connection exactly as a shorter-named sender saying more.  Nothing in [register] or in the
    endpoint restricts the characters of a username. *)
Theorem broadcast_sender_is_ambiguous net sender said more h :
  broadcast net more (sender +:+ ": " +:+ said) h
  = broadcast net (said +:+ ": " +:+ more) sender h.
Proof.
  unfold broadcast, bind, get_manager.
  by rewrite !string_app_assoc.
Qed.

Section AbortFacts.

Variable net : transport.

Lemma broadcast_loop_aborts before c after text h e :
  (forall j c' e', before !! j = Some c' ->
     send_outcome net (length (wire h) + j) c' text = Some e' ->
     isinstance_Exception e' = true) ->
  send_outcome net (length (wire h) + length before) c text = Some e ->
  isinstance_Exception e = false ->
  broadcast_loop net (before ++ c :: after) text h
  = (Raise e, {| manager := manager h; wire := wire h ++ sends text (before ++ [c]) |}).
Proof.
  revert h. induction before as [|b before IH]; intros h Hbefore Hc He.
  - cbn [app broadcast_loop length] in *. rewrite Nat.add_0_r in Hc.
    unfold bind, try_except, send_text. by rewrite Hc, He.
  - cbn [app broadcast_loop]. unfold bind, try_except, send_text, ret.
    set (h1 := {| manager := manager h; wire := wire h ++ [SendText b text] |}).
    assert (length (wire h1) = S (length (wire h))) as Hlen.
    { unfold h1. cbn. rewrite length_app. cbn. lia. }
    assert (broadcast_loop net (before ++ c :: after) text h1
            = (Raise e, {| manager := manager h;
                           wire := wire h ++ sends text ((b :: before) ++ [c]) |})) as Hrest.
    { rewrite IH; [| |by rewrite Hlen; rewrite <- Hc; f_equal; cbn; lia|done].
      - unfold h1. cbn. by rewrite <- app_assoc.
      - intros j c' e' Hj Hout. apply (Hbefore (S j) c' e'); [done|].
        rewrite <- Hout. f_equal. lia. }
    destruct (send_outcome net (length (wire h)) b text) as [e'|] eqn:Hout; [|done].
    rewrite (Hbefore 0 b e'); [done|done|]. by rewrite Nat.add_0_r.
Qed.

End AbortFacts.

(** X15.  An exception that is not an [Exception] (the broadcasting task being
    cancelled while it waits in [send_text]) is not caught by the [except]
    clause: it ends the fan-out there.  The connections before that point were
    written to, those after it are not, and the exception reaches the
    caller. *)
Theorem cancellation_stops_the_fan_out net message sender before c after h e :
  active_connections (manager h) = before ++ c :: after ->
  (forall j c' e', before !! j = Some c' ->
     send_outcome net (length (wire h) + j) c' (sender +:+ ": " +:+ message) = Some e' ->
     isinstance_Exception e' = true) ->
  send_outcome net (length (wire h) + length before) c (sender +:+ ": " +:+ message)
  = Some e ->
  isinstance_Exception e = false ->
  broadcast net message sender h
  = (Raise e,
     {| manager := manager h;
        wire := wire h ++ sends (sender +:+ ": " +:+ message) (before ++ [c]) |}).
Proof.
  intros Hconns Hbefore Hc He. unfold broadcast, bind, get_manager.
  rewrite Hconns. by apply broadcast_loop_aborts.
Qed.

Lemma cancellation_stops_the_fan_out_witness :
  broadcast {| accept_outcome := fun _ _ => None;
               send_outcome := fun _ c _ => if decide (c = 2) then Some CancelledError
                                            else None |}
    "hi" "bob" lobby
  = (Raise CancelledError,
     {| manager := manager lobby; wire := wire lobby ++ sends "bob: hi" ([1] ++ [2]) |}).
Proof.
  apply (cancellation_stops_the_fan_out
           {| accept_outcome := fun _ _ => None;
              send_outcome := fun _ c _ => if decide (c = 2) then Some CancelledError
                                           else None |}
           "hi" "bob" [1] 2 [3] lobby CancelledError).
  - reflexivity.
  - intros [|j] c' e'; cbn; [|done]. by intros [= <-].
  - reflexivity.
  - reflexivity.
Defined.

(** X16.  A session that ends while a broadcast is suspended in its write to that
    very session's socket moves every later entry of the list one place down,
    under the position the broadcast has already reached: the connection that
    came next is passed over.  It is in the registry when the broadcast
    returns and was written nothing (unless it is in the list a second
    time). *)
Theorem removal_during_write_skips_next net message sender c0 c1 rest names w :
  delivery_failures_only net ->
  targets (issued
             {| manager := {| active_connections := c0 :: c1 :: rest; usernames := names |};
                wire := w |}
             (snd (broadcast_interleaved net [[OpDisconnect c0]] message sender
                     {| manager := {| active_connections := c0 :: c1 :: rest;
                                      usernames := names |};
                        wire := w |})))
  = c0 :: rest
  /\ active_connections
       (manager (snd (broadcast_interleaved net [[OpDisconnect c0]] message sender
                        {| manager := {| active_connections := c0 :: c1 :: rest;
                                         usernames := names |};
                           wire := w |})))
     = c1 :: rest.
Proof.
  intros Hnet. unfold broadcast_interleaved.
  generalize (sender +:+ ": " +:+ message). intros text.
  set (h := {| manager := {| active_connections := c0 :: c1 :: rest; usernames := names |};
               wire := w |}).
  set (h2 := {| manager := {| active_connections := c1 :: rest;
                              usernames := delete c0 names |};
                wire := w ++ [SendText c0 text] |}).
  assert (broadcast_from net [[OpDisconnect c0]] 0 text h = broadcast_loop net rest text h2)
    as ->.
  { cbn [broadcast_from]. unfold h. cbn [manager active_connections lookup list_lookup].
    unfold bind, try_except, ret, send_text. cbn [manager wire].
    assert (run_ops net [OpDisconnect c0]
              {| manager := {| active_connections := c0 :: c1 :: rest; usernames := names |};
                 wire := w ++ [SendText c0 text] |} = h2) as Hops.
    { cbn [run_ops run_op]. rewrite disconnect_unfold.
      cbn [manager active_connections list_remove]. by rewrite decide_True. }
    destruct (send_outcome net (length w) c0 text) as [e|] eqn:Hout;
      [rewrite (Hnet _ _ _ _ Hout)|]; by rewrite Hops. }
  rewrite (broadcast_loop_all net rest text h2 Hnet). cbn [snd manager].
  split; [|done].
  rewrite (issued_extends h _ (SendText c0 text :: sends text rest)).
  - cbn. by rewrite targets_sends.
  - unfold h2, h. cbn. by rewrite <- app_assoc.
Qed.

Lemma removal_during_write_skips_next_witness :
  targets (issued
             {| manager := {| active_connections := 1 :: 2 :: [3];
                              usernames := {[1 := "bob"; 2 := "eve"; 3 := "kim"]} |};
                wire := [] |}
             (snd (broadcast_interleaved (dead_peer 3) [[OpDisconnect 1]] "hi" "bob"
                     {| manager := {| active_connections := 1 :: 2 :: [3];
                                      usernames := {[1 := "bob"; 2 := "eve"; 3 := "kim"]} |};
                        wire := [] |})))
  = 1 :: [3]
  /\ active_connections
       (manager (snd (broadcast_interleaved (dead_peer 3) [[OpDisconnect 1]] "hi" "bob"
                        {| manager := {| active_connections := 1 :: 2 :: [3];
                                         usernames := {[1 := "bob"; 2 := "eve"; 3 := "kim"]} |};
                           wire := [] |})))
     = 2 :: [3].
Proof.
  apply (removal_during_write_skips_next (dead_peer 3) "hi" "bob" 1 2 [3]
           {[1 := "bob"; 2 := "eve"; 3 := "kim"]} [] (dead_peer_delivery_failures 3)).
Defined.

Section BoundFacts.

Variable net : transport.

Lemma list_remove_length x l l' : list_remove x l = Some l' -> length l = S (length l').
Proof.
  intros (l1 & l2 & -> & -> & _)%list_remove_Some.
  rewrite !length_app. cbn. lia.
Qed.

Lemma connects_cons others schedule :
  connects (others :: schedule)
  = length (filter (fun o => is_connect o = true) others) + connects schedule.
Proof. unfold connects. cbn [concat]. by rewrite filter_app, length_app. Qed.

(** Another task's call writes nothing to any connection, and lengthens the
    list by one entry at most, and only when it is an admission. *)
Lemma run_op_silent o h :
  exists evs,
    wire (snd (run_op net o h)) = wire h ++ evs
    /\ targets evs = []
    /\ length (active_connections (manager (snd (run_op net o h))))
       <= length (active_connections (manager h)) + (if is_connect o then 1 else 0).
Proof.
  destruct o as [websocket subject|websocket]; cbn [run_op is_connect].
  - rewrite connect_unfold. exists [Accepted websocket].
    destruct (accept_outcome net (length (wire h)) websocket); cbn.
    + split; [done|]. split; [done|]. lia.
    + split; [done|]. split; [done|]. rewrite length_app. cbn. lia.
  - rewrite disconnect_unfold. exists [].
    destruct (list_remove websocket (active_connections (manager h))) as [l|] eqn:Hrem; cbn.
    + split; [by rewrite app_nil_r|]. split; [done|].
      apply list_remove_length in Hrem. lia.
    + split; [by rewrite app_nil_r|]. split; [done|]. lia.
Qed.

Lemma run_ops_silent others h :
  exists evs,
    wire (run_ops net others h) = wire h ++ evs
    /\ targets evs = []
    /\ length (active_connections (manager (run_ops net others h)))
       <= length (active_connections (manager h))
          + length (filter (fun o => is_connect o = true) others).
Proof.
  revert h. induction others as [|o others IH]; intros h.
  - exists []. cbn. split; [by rewrite app_nil_r|]. split; [done|]. lia.
  - cbn [run_ops].
    destruct (run_op_silent o h) as (evs1 & Hw1 & Ht1 & Hl1).
    destruct (IH (snd (run_op net o h))) as (evs2 & Hw2 & Ht2 & Hl2).
    exists (evs1 ++ evs2). split; [by rewrite Hw2, Hw1, app_assoc|].
    split; [by rewrite targets_app, Ht1, Ht2|].
    rewrite filter_cons. destruct o as [websocket subject|websocket]; cbn [is_connect] in *.
    + rewrite decide_True by done. cbn [length]. lia.
    + rewrite decide_False by done. lia.
Qed.

Lemma broadcast_from_bound schedule i text h :
  exists evs,
    wire (snd (broadcast_from net schedule i text h)) = wire h ++ evs
    /\ length (targets evs)
       <= length (active_connections (manager h)) - i + connects schedule.
Proof.
  revert i h. induction schedule as [|others schedule IH]; intros i h.
  - cbn [broadcast_from].
    destruct (broadcast_loop_wire net (drop i (active_connections (manager h))) text h)
      as [k Hk].
    eexists. split; [exact Hk|]. rewrite targets_sends, length_take, length_drop. lia.
  - cbn [broadcast_from].
    destruct (active_connections (manager h) !! i) as [connection|] eqn:Hi.
    + apply lookup_lt_Some in Hi. rewrite connects_cons.
      unfold bind, try_except, ret, send_text.
      set (h1 := {| manager := manager h; wire := wire h ++ [SendText connection text] |}).
      destruct (run_ops_silent others h1) as (evs2 & Hw2 & Ht2 & Hl2).
      destruct (IH (S i) (run_ops net others h1)) as (evs3 & Hw3 & Hl3).
      assert (exists evs,
                wire (snd (broadcast_from net schedule (S i) text (run_ops net others h1)))
                = wire h ++ evs
                /\ length (targets evs)
                   <= length (active_connections (manager h)) - i
                      + (length (filter (fun o => is_connect o = true) others)
                         + connects schedule)) as Hcontinue.
      { exists ([SendText connection text] ++ evs2 ++ evs3).
        split; [rewrite Hw3, Hw2; unfold h1; cbn; by rewrite <- !app_assoc|].
        rewrite !targets_app, Ht2, !length_app.
        change (targets [SendText connection text]) with [connection].
        change (manager h1) with (manager h) in Hl2. cbn [length]. lia. }
      assert (exists evs,
                wire (run_ops net others h1) = wire h ++ evs
                /\ length (targets evs)
                   <= length (active_connections (manager h)) - i
                      + (length (filter (fun o => is_connect o = true) others)
                         + connects schedule)) as Hstop.
      { exists ([SendText connection text] ++ evs2).
        split; [rewrite Hw2; unfold h1; cbn; by rewrite <- !app_assoc|].
        rewrite targets_app, Ht2.
        change (targets [SendText connection text]) with [connection]. cbn. lia. }
      destruct (send_outcome net (length (wire h)) connection text) as [e|]; [|done].
      by destruct (isinstance_Exception e).
    + exists []. cbn. split; [by rewrite app_nil_r | lia].
Qed.

End BoundFacts.

(** X17.  However the other tasks register and deregister while a broadcast is
    suspended, the broadcast ends, and it makes no more writes than there were
    connections at its start plus admissions made during it. *)
Theorem interleaved_writes_bounded net schedule message sender h :
  length (targets (issued h (snd (broadcast_interleaved net schedule message sender h))))
  <= length (active_connections (manager h)) + connects schedule.
Proof.
  unfold broadcast_interleaved.
  destruct (broadcast_from_bound net schedule 0 (sender +:+ ": " +:+ message) h)
    as (evs & Hw & Hl).
  rewrite (issued_extends _ _ _ Hw). lia.
Qed.

(** ** What the program does not consult *)

Lemma broadcast_loop_ignores_manager net cs text m m' w :
  fst (broadcast_loop net cs text {| manager := m; wire := w |})
  = fst (broadcast_loop net cs text {| manager := m'; wire := w |})
  /\ wire (snd (broadcast_loop net cs text {| manager := m; wire := w |}))
     = wire (snd (broadcast_loop net cs text {| manager := m'; wire := w |})).
Proof.
  revert w. induction cs as [|c cs IH]; intros w; [done|].
  cbn [broadcast_loop]. unfold bind, try_except, send_text, ret. cbn [manager wire].
  destruct (send_outcome net (length w) c text) as [e|].
  - destruct (isinstance_Exception e); [apply IH | done].
  - apply IH.
Qed.

(** X14.  The [usernames] dict is written by [connect] and [disconnect] and read by
    nothing: a broadcast returns the same and writes the same whatever
    usernames the registry holds for the connections.  The name a message is
    relayed under is the one the sending session took from its token. *)
Theorem broadcast_ignores_usernames net message sender cs names names' w :
  fst (broadcast net message sender
         {| manager := {| active_connections := cs; usernames := names |}; wire := w |})
  = fst (broadcast net message sender
           {| manager := {| active_connections := cs; usernames := names' |}; wire := w |})
  /\ wire (snd (broadcast net message sender
                  {| manager := {| active_connections := cs; usernames := names |};
                     wire := w |}))
     = wire (snd (broadcast net message sender
                    {| manager := {| active_connections := cs; usernames := names' |};
                       wire := w |})).
Proof.
  unfold broadcast, bind, get_manager. cbn [manager active_connections].
  apply broadcast_loop_ignores_manager.
Qed.

(** X6.  Registrations never take a user's access away: a token that
    [get_current_user] accepts against the store is accepted, for the same
    user, against the store after any further registrations. *)
Theorem token_survives_registrations sign int_of_str pwd_hash requests
    (users_db : gmap string user_record) now t name :
  get_current_user sign int_of_str users_db now t = Return name ->
  get_current_user sign int_of_str (register_all pwd_hash requests users_db) now t = Return name.
Proof.
  unfold get_current_user.
  destruct (decode_access_token sign int_of_str now t) as [[subject|]|e]; [|done|done].
  cbn [and_then].
  destruct (bool_decide (subject ∈ dom users_db)) eqn:Hin; [|done].
  intros [= <-]. apply bool_decide_eq_true in Hin.
  apply elem_of_dom in Hin as [r Hr].
  rewrite bool_decide_eq_true_2; [done|].
  apply elem_of_dom. exists r. by apply register_all_keeps.
Qed.

Lemma token_survives_registrations_witness :
  get_current_user toy_sign toy_int_of_str
    (register_all toy_hash [({| username := "bob"; password := "hunter2" |}, "salt2");
                            ({| username := "eve"; password := "pw" |}, "s0")]
       bob_registered)
    0 (create_access_token toy_sign toy_segments {["sub" := JStr "bob"]})
  = Return "bob".
Proof.
  apply (token_survives_registrations toy_sign toy_int_of_str toy_hash
           [({| username := "bob"; password := "hunter2" |}, "salt2");
            ({| username := "eve"; password := "pw" |}, "s0")]
           bob_registered 0
           (create_access_token toy_sign toy_segments {["sub" := JStr "bob"]}) "bob").
  reflexivity.
Defined.

(** ** From login to the chat *)

(** X18.  The token [login] gives out opens the chat.  Against a store whose records
    are filed under their own usernames, a socket presenting that token is
    accepted and registered under the name that logged in, and, with delivery
    failures only, each frame it sends is written once to every registered
    connection, itself included, as ["<name>: <frame>"]; after the last frame
    the session is still open and the socket still registered. *)
Theorem login_token_opens_session sign segments int_of_str pwd_verify net name pw
    (users_db : gmap string user_record) t now websocket frames h :
  store_ok users_db ->
  login sign segments pwd_verify name pw users_db
  = Return {| status_code := 200; content := Token t "bearer" |} ->
  delivery_failures_only net ->
  accept_outcome net (length (wire h)) websocket = None ->
  websocket_endpoint sign int_of_str net now websocket t (Return <$> frames) h
  = (Return tt,
     {| manager := {| active_connections := active_connections (manager h) ++ [websocket];
                      usernames := <[websocket := name]> (usernames (manager h)) |};
        wire := wire h ++ Accepted websocket
                  :: session_writes name
                       (active_connections (manager h) ++ [websocket]) frames |}).
Proof.
  intros Hok (user & Hu & _ & [= ->])%login_Return Hnet Hacc.
  rewrite (Hok name user Hu).
  rewrite (endpoint_admits sign int_of_str net now websocket _ name _ h
             (decode_round_trip sign segments int_of_str now name) Hacc).
  unfold try_except.
  rewrite <- (app_nil_r (Return <$> frames)).
  rewrite (chat_loop_frames net name frames [] _ Hnet).
  cbn [chat_loop ret manager wire active_connections].
  by rewrite <- app_assoc.
Qed.

Lemma login_token_opens_session_witness :
  websocket_endpoint toy_sign toy_int_of_str (dead_peer 2) 0 4
    (create_access_token toy_sign toy_segments {["sub" := JStr "bob"]})
    (Return <$> ["hi"]) lobby
  = (Return tt,
     {| manager := {| active_connections := active_connections (manager lobby) ++ [4];
                      usernames := <[4 := "bob"]> (usernames (manager lobby)) |};
        wire := wire lobby ++ Accepted 4
                  :: session_writes "bob" (active_connections (manager lobby) ++ [4])
                       ["hi"] |}).
Proof.
  apply (login_token_opens_session toy_sign toy_segments toy_int_of_str toy_verify (dead_peer 2)
           "bob" "secret123" bob_registered
           (create_access_token toy_sign toy_segments {["sub" := JStr "bob"]})
           0 4 ["hi"] lobby bob_registered_ok).
  - reflexivity.
  - apply dead_peer_delivery_failures.
  - reflexivity.
Defined.
